(** * Signaling relay and room coordinator of vido-backend

    A shallow embedding of the socket module ([setupSockets] and the
    functions around it, lines 17-329 of src/src/auth.ts in the sources
    at hand): the handlers registered on every socket,
    [getMeetingCreatorEmail], [getMeetingId], [flushMessages] and the
    module-level maps they share.  Handlers are state-passing computations
    that may throw and that record what they send. *)

From Stdlib Require Import List String Ascii ZArith Bool Arith Lia.
From Stdlib Require Import DecimalString.
Import ListNotations.
Open Scope string_scope.
Open Scope list_scope.
Set Warnings "-register-all".

(** ** JavaScript values

    Handler payloads are untyped ([any]) at run time.  Numbers are
    restricted to integers: no handler does arithmetic on a payload. *)
Module Js.

Inductive value : Type :=
| VUndefined
| VNull
| VBool (b : bool)
| VNum (n : Z)
| VStr (s : string)
| VArr (items : list value)
| VObj (fields : list (string * value)).

(** Errors a handler can raise. *)
Inductive error : Type :=
| SyntaxError
| TypeError.

(** [SameValueZero] / [===] on values.  Objects and arrays are compared
    by structure here; in JavaScript they are compared by reference. *)
Fixpoint eqb (a b : value) {struct a} : bool :=
  match a, b with
  | VUndefined, VUndefined => true
  | VNull, VNull => true
  | VBool x, VBool y => Bool.eqb x y
  | VNum x, VNum y => Z.eqb x y
  | VStr x, VStr y => String.eqb x y
  | VArr xs, VArr ys =>
      (fix items (xs ys : list value) : bool :=
         match xs, ys with
         | [], [] => true
         | x :: xs', y :: ys' => eqb x y && items xs' ys'
         | _, _ => false
         end) xs ys
  | VObj xs, VObj ys =>
      (fix fields (xs ys : list (string * value)) : bool :=
         match xs, ys with
         | [], [] => true
         | (k, x) :: xs', (k', y) :: ys' =>
             String.eqb k k' && eqb x y && fields xs' ys'
         | _, _ => false
         end) xs ys
  | _, _ => false
  end.

(** Truthiness, as tested by [if (x)], [x || y] and [x && y]. *)
Definition truthy (v : value) : bool :=
  match v with
  | VUndefined | VNull => false
  | VBool b => b
  | VNum n => negb (Z.eqb n 0)
  | VStr s => negb (String.eqb s EmptyString)
  | VArr _ | VObj _ => true
  end.

(** [a || b] *)
Definition or (a b : value) : value := if truthy a then a else b.

Fixpoint assoc (k : string) (fs : list (string * value)) : option value :=
  match fs with
  | [] => None
  | (k', v) :: fs' => if String.eqb k k' then Some v else assoc k fs'
  end.

(** [v.k] for the property names the handlers read (none of them is
    [length] or an index).  [None] is the TypeError raised on [null] and
    [undefined]. *)
Definition prop (v : value) (k : string) : option value :=
  match v with
  | VUndefined | VNull => None
  | VObj fs => Some (match assoc k fs with Some x => x | None => VUndefined end)
  | _ => Some VUndefined
  end.

(** [o.k = v] on an object's own properties: an existing key keeps its
    position, a new key goes last. *)
Fixpoint set_field (fs : list (string * value)) (k : string) (v : value)
  : list (string * value) :=
  match fs with
  | [] => [(k, v)]
  | (k', x) :: fs' =>
      if String.eqb k k' then (k', v) :: fs' else (k', x) :: set_field fs' k v
  end.

Definition index_key (i : nat) : string :=
  NilEmpty.string_of_uint (Nat.to_uint i).

Fixpoint indexed {A} (f : A -> value) (i : nat) (xs : list A)
  : list (string * value) :=
  match xs with
  | [] => []
  | x :: xs' => (index_key i, f x) :: indexed f (S i) xs'
  end.

(** Own enumerable properties copied by [{...v}]. *)
Definition spread (v : value) : list (string * value) :=
  match v with
  | VObj fs => fs
  | VArr xs => indexed (fun x => x) 0 xs
  | VStr s => indexed (fun c => VStr (String c EmptyString)) 0 (list_ascii_of_string s)
  | _ => []
  end.

End Js.

Import Js.

(** Induction over values that reaches inside arrays and objects. *)
Section ValueInduction.

Variable P : value -> Prop.
Hypothesis Hundefined : P VUndefined.
Hypothesis Hnull : P VNull.
Hypothesis Hbool : forall b, P (VBool b).
Hypothesis Hnum : forall n, P (VNum n).
Hypothesis Hstr : forall s, P (VStr s).
Hypothesis Harr : forall xs, Forall P xs -> P (VArr xs).
Hypothesis Hobj : forall fs, Forall (fun kv => P (snd kv)) fs -> P (VObj fs).

Fixpoint value_nested_ind (v : value) : P v :=
  match v with
  | VUndefined => Hundefined
  | VNull => Hnull
  | VBool b => Hbool b
  | VNum n => Hnum n
  | VStr s => Hstr s
  | VArr xs =>
      Harr xs
        ((fix all (l : list value) : Forall P l :=
            match l with
            | [] => Forall_nil _
            | x :: l' => Forall_cons _ (value_nested_ind x) (all l')
            end) xs)
  | VObj fs =>
      Hobj fs
        ((fix all (l : list (string * value)) : Forall (fun kv => P (snd kv)) l :=
            match l with
            | [] => Forall_nil _
            | kv :: l' => Forall_cons _ (value_nested_ind (snd kv)) (all l')
            end) fs)
  end.

End ValueInduction.

(** ** [Map]

    A JavaScript [Map]: keys compared with SameValueZero, entries kept in
    insertion order. *)
Module JsMap.

Definition t (V : Type) : Type := list (value * V).

Fixpoint get {V} (m : t V) (k : value) : option V :=
  match m with
  | [] => None
  | (k', v) :: m' => if Js.eqb k' k then Some v else get m' k
  end.

Definition has {V} (m : t V) (k : value) : bool :=
  match get m k with Some _ => true | None => false end.

Fixpoint set {V} (m : t V) (k : value) (v : V) : t V :=
  match m with
  | [] => [(k, v)]
  | (k', x) :: m' =>
      if Js.eqb k' k then (k', v) :: m' else (k', x) :: set m' k v
  end.

Fixpoint delete {V} (m : t V) (k : value) : t V :=
  match m with
  | [] => []
  | (k', x) :: m' =>
      if Js.eqb k' k then m' else (k', x) :: delete m' k
  end.

End JsMap.

(** ** Data model *)

(** [interface UserInfo] *)
Module UserInfo.

Record t : Type := mk {
  id : string;
  name : value;
  email : value;
  image : value;
  isModerator : bool
}.

(** The object as it appears inside an emitted payload. *)
Definition to_value (u : t) : value :=
  VObj [("id", VStr (id u)); ("name", name u); ("email", email u);
        ("image", image u); ("isModerator", VBool (isModerator u))].

(** [info.isModerator = true] *)
Definition promote (u : t) : t :=
  mk (id u) (name u) (email u) (image u) true.

End UserInfo.

(** [interface BufferedMessage] *)
Module BufferedMessage.

Record t : Type := mk {
  id : string;
  meetingCode : value;
  senderId : string;
  senderName : value;
  content : value;
  createdAt : Z
}.

End BufferedMessage.

(** A row handed to [db.insert(message).values(...)]. *)
Module MessageRow.

Record t : Type := mk {
  id : string;
  meetingId : string;
  senderId : string;
  senderName : value;
  content : value;
  createdAt : Z
}.

End MessageRow.

(** The database module ([db/db.js]) is outside the sources at hand; each
    query the socket module issues is a function of the database's
    content, which is supplied from outside.  [DbError] is a rejected
    query. *)
Inductive DbResult (A : Type) : Type :=
| DbOk (a : A)
| DbError.
Arguments DbOk {A} a.
Arguments DbError {A}.

Record Db : Type := mkDb {
  (** [select user.email from meeting join user ... where meetingCode = ? limit 1] *)
  select_creator_email : value -> DbResult (list string);
  (** [select meeting.id from meeting where meetingCode = ? limit 1] *)
  select_meeting_id : value -> DbResult (list string);
  (** [insert into message values ...] *)
  insert_messages : list MessageRow.t -> DbResult unit
}.

(** Module-level state of the socket module together with the part of
    the socket.io server the handlers read and change. *)
Record State : Type := mkState {
  roomModerators : JsMap.t string;          (* roomId -> moderator socketId *)
  socketUserInfo : JsMap.t UserInfo.t;      (* socketId -> UserInfo *)
  meetingIdMap : JsMap.t string;            (* meetingCode -> meetingId *)
  messageBuffer : list BufferedMessage.t;
  memberships : list (string * value);      (* adapter: (socket, room) in join order *)
  sockets : list string                     (* io.sockets.sockets *)
}.

Definition initial : State := mkState [] [] [] [] [] [].

Definition with_roomModerators (f : JsMap.t string -> JsMap.t string) (st : State) : State :=
  mkState (f (roomModerators st)) (socketUserInfo st) (meetingIdMap st)
          (messageBuffer st) (memberships st) (sockets st).

Definition with_socketUserInfo (f : JsMap.t UserInfo.t -> JsMap.t UserInfo.t) (st : State) : State :=
  mkState (roomModerators st) (f (socketUserInfo st)) (meetingIdMap st)
          (messageBuffer st) (memberships st) (sockets st).

Definition with_meetingIdMap (f : JsMap.t string -> JsMap.t string) (st : State) : State :=
  mkState (roomModerators st) (socketUserInfo st) (f (meetingIdMap st))
          (messageBuffer st) (memberships st) (sockets st).

Definition with_messageBuffer (f : list BufferedMessage.t -> list BufferedMessage.t) (st : State) : State :=
  mkState (roomModerators st) (socketUserInfo st) (meetingIdMap st)
          (f (messageBuffer st)) (memberships st) (sockets st).

Definition with_memberships (f : list (string * value) -> list (string * value)) (st : State) : State :=
  mkState (roomModerators st) (socketUserInfo st) (meetingIdMap st)
          (messageBuffer st) (f (memberships st)) (sockets st).

Definition with_sockets (f : list string -> list string) (st : State) : State :=
  mkState (roomModerators st) (socketUserInfo st) (meetingIdMap st)
          (messageBuffer st) (memberships st) (f (sockets st)).

(** ** Transport (socket.io server with its in-memory adapter) *)

Definition mem (s : string) (l : list string) : bool :=
  existsb (String.eqb s) l.

(** First occurrences, in order. *)
Fixpoint uniq (seen l : list string) : list string :=
  match l with
  | [] => []
  | x :: l' => if mem x seen then uniq seen l' else x :: uniq (x :: seen) l'
  end.

(** [adapter.rooms.get(room)]: the room's member set. *)
Definition members (st : State) (room : value) : list string :=
  map fst (filter (fun p => Js.eqb (snd p) room) (memberships st)).

(** [socket.rooms] *)
Definition rooms_of (st : State) (sid : string) : list value :=
  map snd (filter (fun p => String.eqb (fst p) sid) (memberships st)).

Definition is_member (st : State) (sid : string) (room : value) : bool :=
  existsb (fun p => String.eqb (fst p) sid && Js.eqb (snd p) room) (memberships st).

(** [to(room)], [in(room)] and [join(room)] take one room or an array. *)
Definition rooms_arg (v : value) : list value :=
  match v with
  | VArr l => l
  | _ => [v]
  end.

(** The adapter's [apply]: the connected sockets of the named rooms (of
    every room when none is named), each once, without those of the
    excepted rooms. *)
Definition apply (st : State) (rooms except : list value) : list string :=
  let excluded := flat_map (members st) except in
  let named :=
    match rooms with
    | [] => uniq [] (map fst (memberships st))
    | _ => uniq [] (flat_map (members st) rooms)
    end in
  filter (fun s => negb (mem s excluded) && mem s (sockets st)) named.

(** Where an emit is addressed: one socket's connection (a [socket.emit]
    on a server without state recovery), or the sockets of rooms. *)
Inductive Address : Type :=
| ToSocket (sid : string)
| ToRooms (rooms : list value) (except : list value).  (* io.to(..).except(..) *)

Definition recipients (st : State) (a : Address) : list string :=
  match a with
  | ToSocket sid => [sid]
  | ToRooms rooms except => apply st rooms except
  end.

(** [console.warn] and [console.error]; the [console.log] lines of the
    module leave no trace here. *)
Inductive LogLevel : Type :=
| LogWarn
| LogError.

(** What a handler does to the outside, in order.  [Sent] records both
    the addressing as written and the connections that receive, computed
    when the emit happens; [Console] keeps the fixed text of the message
    and the values interpolated into it. *)
Inductive Effect : Type :=
| Sent (to : Address) (received_by : list string) (event : string) (payload : value)
| Joined (sid : string) (rooms : list value)
| Left (sid : string) (room : value)
| DbInsert (rows : list MessageRow.t)
| Console (level : LogLevel) (text : string) (args : list value).

(** ** Handler computations *)

Inductive Outcome (A : Type) : Type :=
| Returned (a : A)
| Thrown (e : Js.error).
Arguments Returned {A} a.
Arguments Thrown {A} e.

Record Run (A : Type) : Type := mkRun {
  outcome : Outcome A;
  final : State;
  trace : list Effect
}.
Arguments mkRun {A} _ _ _.
Arguments outcome {A} _.
Arguments final {A} _.
Arguments trace {A} _.

Definition M (A : Type) : Type := State -> Run A.

Definition ret {A} (a : A) : M A := fun st => mkRun (Returned a) st [].

Definition throw {A} (e : Js.error) : M A := fun st => mkRun (Thrown e) st [].

Definition bind {A B} (c : M A) (k : A -> M B) : M B :=
  fun st =>
    match c st with
    | mkRun (Returned a) st' t =>
        match k a st' with
        | mkRun o st'' t' => mkRun o st'' (t ++ t')
        end
    | mkRun (Thrown e) st' t => mkRun (Thrown e) st' t
    end.

Notation "x <- c ;; k" := (bind c (fun x => k))
  (at level 61, c at next level, right associativity).
Notation "c ;;; k" := (bind c (fun _ => k))
  (at level 61, right associativity).

Definition read : M State := fun st => mkRun (Returned st) st [].

Definition modify (f : State -> State) : M unit :=
  fun st => mkRun (Returned tt) (f st) [].

Definition effect (e : Effect) : M unit :=
  fun st => mkRun (Returned tt) st [e].

Definition when (b : bool) (c : M unit) : M unit :=
  if b then c else ret tt.

Fixpoint for_each {A} (l : list A) (body : A -> M unit) : M unit :=
  match l with
  | [] => ret tt
  | x :: l' => body x ;;; for_each l' body
  end.

(** [v.k], raising TypeError on [null] and [undefined]. *)
Definition get_prop (v : value) (k : string) : M value :=
  match Js.prop v k with
  | Some x => ret x
  | None => throw TypeError
  end.

(** [target.emit(event, payload)] for any addressing. *)
Definition emit (a : Address) (event : string) (payload : value) : M unit :=
  st <- read ;;
  effect (Sent a (recipients st a) event payload).

(** [socket.emit(event, payload)] on the server of lines 129-137, which
    sets [connectionStateRecovery]: the packet is not written to the
    socket's connection but broadcast to the room named by the socket's
    id (where the adapter keeps it for a client that recovers), so every
    socket that joined that room gets it too. *)
Definition socket_emit (sid : string) (event : string) (payload : value) : M unit :=
  emit (ToRooms [VStr sid] []) event payload.

(** [socket.join(room)] *)
Definition add_all (sid : string) (rooms : list value) (ms : list (string * value))
  : list (string * value) :=
  fold_left
    (fun acc r =>
       if existsb (fun p => String.eqb (fst p) sid && Js.eqb (snd p) r) acc
       then acc else acc ++ [(sid, r)])
    rooms ms.

Definition socket_join (sid : string) (room : value) : M unit :=
  modify (with_memberships (add_all sid (rooms_arg room))) ;;;
  effect (Joined sid (rooms_arg room)).

(** [socket.leave(room)] *)
Definition socket_leave (sid : string) (room : value) : M unit :=
  modify (with_memberships
            (filter (fun p => negb (String.eqb (fst p) sid && Js.eqb (snd p) room)))) ;;;
  effect (Left sid room).

(** [io.in(room).fetchSockets()], as socket ids. *)
Definition fetchSockets (room : value) : M (list string) :=
  st <- read ;;
  ret (apply st (rooms_arg room) []).

(** [io.sockets.sockets.get(id)] *)
Definition find_socket (st : State) (id : value) : option string :=
  match id with
  | VStr s => if mem s (sockets st) then Some s else None
  | _ => None
  end.

(** A new connection: the server registers the socket and puts it in the
    room named by its own id. *)
Definition transport_connect (sid : string) : M unit :=
  modify (with_sockets (fun l => l ++ [sid])) ;;;
  modify (with_memberships (add_all sid [VStr sid])).

(** After the [disconnecting] listeners were called the server takes the
    socket out of every room and forgets it. *)
Definition transport_close (sid : string) : M unit :=
  modify (with_memberships (filter (fun p => negb (String.eqb (fst p) sid)))) ;;;
  modify (with_sockets (filter (fun s => negb (String.eqb s sid)))).

(** The server calls the [disconnecting] listeners and goes on to its
    clean-up in one piece.  A listener that is an [async] function runs
    inside that call up to its first [await] only: what comes after the
    [await] runs when the clean-up is done.  [suspend sid cleaned] is an
    [await] of such a listener, [cleaned] saying whether an earlier
    [await] has let the clean-up happen already. *)
Definition suspend (sid : string) (cleaned : bool) : M unit :=
  when (negb cleaned) (transport_close sid).

(** An emit of a [disconnecting] listener.  The listener is called when
    the connection of [sid] is lost or its client has left: whatever the
    adapter still hands to [sid] is received by nobody. *)
Definition emit_closing (sid : string) (a : Address) (event : string) (payload : value)
  : M unit :=
  st <- read ;;
  effect (Sent a (filter (fun s => negb (String.eqb s sid)) (recipients st a))
               event payload).

(** ** The socket module *)

Section Handlers.

(** Built-ins of the language, taken as given: [JSON.parse] ([None] is
    its SyntaxError), [String.prototype.toLowerCase] and
    [Date.prototype.toISOString] on a time in milliseconds. *)
Variable JSON_parse : string -> option value.
Variable toLowerCase : string -> string.
Variable toISOString : Z -> string.

Definition json_parse (msg : string) : M value :=
  match JSON_parse msg with
  | Some v => ret v
  | None => throw SyntaxError
  end.

(** [s.toLowerCase()] on an arbitrary value: only strings have the method. *)
Definition call_toLowerCase (v : value) : M string :=
  match v with
  | VStr s => ret (toLowerCase s)
  | _ => throw TypeError
  end.

Definition opt_info (o : option UserInfo.t) : value :=
  match o with
  | Some u => UserInfo.to_value u
  | None => VUndefined
  end.

(** [getMeetingCreatorEmail] (lines 49-65): the creator's email, [null]
    when there is none or the query fails. *)
Definition getMeetingCreatorEmail (db : Db) (meetingCode : value) : M (option string) :=
  match select_creator_email db meetingCode with
  | DbOk (creatorEmail :: _) => ret (Some creatorEmail)
  | DbOk [] => ret None
  | DbError =>
      effect (Console LogError "Error getting meeting creator:" []) ;;;
      ret None
  end.

(** [getMeetingId] (lines 67-88): the cache first, the database on a
    miss; only a found id is cached. *)
Definition getMeetingId (db : Db) (meetingCode : value) : M (option string) :=
  st <- read ;;
  if JsMap.has (meetingIdMap st) meetingCode then
    ret (JsMap.get (meetingIdMap st) meetingCode)
  else
    match select_meeting_id db meetingCode with
    | DbOk (id :: _) =>
        modify (with_meetingIdMap (fun m => JsMap.set m meetingCode id)) ;;;
        ret (Some id)
    | DbOk [] => ret None
    | DbError =>
        effect (Console LogError "Error fetching meeting ID for code" [meetingCode]) ;;;
        ret None
    end.

(** *** [flushMessages] (lines 90-123) *)

Definition to_row (msg : BufferedMessage.t) (meetingId : string) : MessageRow.t :=
  MessageRow.mk (BufferedMessage.id msg) meetingId (BufferedMessage.senderId msg)
                (BufferedMessage.senderName msg) (BufferedMessage.content msg)
                (BufferedMessage.createdAt msg).

(** [if (meetingId)] on [string | null] *)
Definition usable (meetingId : option string) : option string :=
  match meetingId with
  | Some id => if String.eqb id EmptyString then None else Some id
  | None => None
  end.

(** One turn of the [for (const msg of messagesToSave)] loop. *)
Definition resolve_one (db : Db) (validMessages : list MessageRow.t)
           (msg : BufferedMessage.t) : M (list MessageRow.t) :=
  meetingId <- getMeetingId db (BufferedMessage.meetingCode msg) ;;
  match usable meetingId with
  | Some id => ret (validMessages ++ [to_row msg id])
  | None =>
      effect (Console LogWarn "Could not find meeting ID for code, dropping message."
                      [BufferedMessage.meetingCode msg]) ;;;
      ret validMessages
  end.

Fixpoint resolve_all (db : Db) (msgs : list BufferedMessage.t)
         (validMessages : list MessageRow.t) : M (list MessageRow.t) :=
  match msgs with
  | [] => ret validMessages
  | msg :: rest =>
      validMessages' <- resolve_one db validMessages msg ;;
      resolve_all db rest validMessages'
  end.

(** [if (validMessages.length > 0) await db.insert(message).values(validMessages)]
    inside the [try]; a rejected insert lands in the [catch]. *)
Definition write_batch (db : Db) (validMessages : list MessageRow.t) : M unit :=
  match validMessages with
  | [] => ret tt
  | _ =>
      effect (DbInsert validMessages) ;;;
      match insert_messages db validMessages with
      | DbOk _ => ret tt
      | DbError => effect (Console LogError "Error saving messages to database:" [])
      end
  end.

(** [const messagesToSave = [...messageBuffer]; messageBuffer.length = 0;] *)
Definition take_buffer : M (list BufferedMessage.t) :=
  st <- read ;;
  modify (with_messageBuffer (fun _ => [])) ;;;
  ret (messageBuffer st).

Definition flushMessages (db : Db) : M unit :=
  st <- read ;;
  match messageBuffer st with
  | [] => ret tt
  | _ =>
      messagesToSave <- take_buffer ;;
      validMessages <- resolve_all db messagesToSave [] ;;
      write_batch db validMessages
  end.

(** *** [socket.on("user-message", ...)] (lines 148-168)

    [t_emit] and [t_push] are the two readings of the clock, [uuid] the
    result of [uuidv4()]. *)
Definition on_user_message (sid : string) (msg : value)
           (t_emit : Z) (uuid : string) (t_push : Z) : M unit :=
  roomId <- get_prop msg "roomId" ;;
  text <- get_prop msg "text" ;;
  senderName <- get_prop msg "senderName" ;;
  let messageData :=
    VObj [("userId", VStr sid);
          ("senderName", Js.or senderName (VStr "Anonymous"));
          ("text", text);
          ("time", VStr (toISOString t_emit))] in
  emit (ToRooms (rooms_arg roomId) [VStr sid]) "chat-message" messageData ;;;
  modify (with_messageBuffer (fun buf =>
    buf ++ [BufferedMessage.mk uuid roomId sid
              (Js.or senderName (VStr "Anonymous")) text t_push])).

(** *** [socket.on("join-room", ...)] (lines 170-221) *)

Definition is_creator (creatorEmail : option string) (userEmail : value) : M bool :=
  match creatorEmail with
  | None => ret false
  | Some creatorEmail =>
      if Js.eqb userEmail (VStr EmptyString) then ret false
      else
        lowered <- call_toLowerCase userEmail ;;
        ret (String.eqb (toLowerCase creatorEmail) lowered)
  end.

Definition participant (st : State) (s : string) : value :=
  VObj [("socketId", VStr s);
        ("userInfo",
         match JsMap.get (socketUserInfo st) (VStr s) with
         | Some info => UserInfo.to_value info
         | None =>
             VObj [("id", VStr s); ("name", VStr "Unknown");
                   ("email", VStr EmptyString); ("isModerator", VBool false)]
         end)].

Definition on_join_room (db : Db) (sid : string) (msg : string) : M unit :=
  payload <- json_parse msg ;;
  roomId <- get_prop payload "roomId" ;;
  userEmail <- get_prop payload "userEmail" ;;
  creatorEmail <- getMeetingCreatorEmail db roomId ;;
  isCreator <- is_creator creatorEmail userEmail ;;
  userName <- get_prop payload "userName" ;;
  userImage <- get_prop payload "userImage" ;;
  let userInfo :=
    UserInfo.mk sid (Js.or userName (VStr "Anonymous")) (Js.or userEmail (VStr EmptyString))
                (Js.or userImage VUndefined) isCreator in
  when isCreator
       (modify (with_roomModerators (fun m => JsMap.set m roomId sid))) ;;;
  modify (with_socketUserInfo (fun m => JsMap.set m (VStr sid) userInfo)) ;;;
  socket_join sid roomId ;;;
  emit (ToRooms (rooms_arg roomId) [VStr sid]) "peer-joined"
       (VObj [("socketId", VStr sid); ("userInfo", UserInfo.to_value userInfo)]) ;;;
  existingPeers <- fetchSockets roomId ;;
  st <- read ;;
  let participantsInfo :=
    map (participant st)
        (filter (fun s => negb (String.eqb s sid)) existingPeers) in
  socket_emit sid "existing-participants" (VArr participantsInfo).

(** *** Signaling: [offer-to-server], [answer-to-server],
        [ice-candidate-to-server] (lines 223-241) *)

Definition relay_with_sender (event : string) (sid : string) (payload : value) : M unit :=
  st <- read ;;
  let senderInfo := JsMap.get (socketUserInfo st) (VStr sid) in
  to <- get_prop payload "to" ;;
  emit (ToRooms (rooms_arg to) []) event
       (VObj (Js.set_field (Js.spread payload) "userInfo" (opt_info senderInfo))).

Definition on_offer (sid : string) (payload : value) : M unit :=
  relay_with_sender "offer" sid payload.

Definition on_answer (sid : string) (payload : value) : M unit :=
  relay_with_sender "answer" sid payload.

Definition on_ice_candidate (sid : string) (payload : value) : M unit :=
  to <- get_prop payload "to" ;;
  emit (ToRooms (rooms_arg to) []) "ice-candidate" payload.

(** *** [socket.on("kick-user", ...)] (lines 243-281) *)

Definition is_moderator (st : State) (roomId : value) (sid : string) : bool :=
  match JsMap.get (roomModerators st) roomId with
  | Some moderator => String.eqb moderator sid
  | None => false
  end.

Definition kick_error (sid : string) (message : string) : M unit :=
  socket_emit sid "kick-error" (VObj [("message", VStr message)]).

Definition on_kick_user (sid : string) (payload : value) : M unit :=
  roomId <- get_prop payload "roomId" ;;
  targetSocketId <- get_prop payload "targetSocketId" ;;
  st <- read ;;
  let kickerInfo := JsMap.get (socketUserInfo st) (VStr sid) in
  if negb (is_moderator st roomId sid) then
    kick_error sid "Only the moderator can kick users"
  else if Js.eqb targetSocketId (VStr sid) then
    kick_error sid "You cannot kick yourself"
  else
    match find_socket st targetSocketId with
    | Some target =>
        let targetInfo := JsMap.get (socketUserInfo st) targetSocketId in
        socket_emit target "kicked"
             (VObj [("message",
                     VStr "You have been removed from the meeting by the moderator");
                    ("kickedBy",
                     Js.or (match kickerInfo with
                            | Some info => UserInfo.name info
                            | None => VUndefined
                            end) (VStr "Moderator"))]) ;;;
        socket_leave target roomId ;;;
        emit (ToRooms (rooms_arg roomId) []) "peer-left"
             (VObj [("socketId", targetSocketId); ("reason", VStr "kicked");
                    ("userInfo", opt_info targetInfo)]) ;;;
        modify (with_socketUserInfo (fun m => JsMap.delete m targetSocketId))
    | None => ret tt
    end.

(** *** [socket.on("disconnecting", ...)] (lines 283-327) *)

(** The body of [if (roomModerators.get(roomId) === socket.id)]: the
    sockets of the room are collected when [fetchSockets] is called, the
    rest runs after the [await]. *)

Definition failover (sid : string) (roomId : value) (cleaned : bool) : M unit :=
  remainingSockets <- fetchSockets roomId ;;
  suspend sid cleaned ;;;
  let otherSockets := filter (fun s => negb (String.eqb s sid)) remainingSockets in
  match otherSockets with
  | [] => ret tt
  | newModerator :: _ =>
      if Js.truthy (VStr newModerator) then
        modify (with_roomModerators (fun m => JsMap.set m roomId newModerator)) ;;;
        st <- read ;;
        let newModInfo := JsMap.get (socketUserInfo st) (VStr newModerator) in
        match newModInfo with
        | Some info =>
            modify (with_socketUserInfo (fun m =>
              JsMap.set m (VStr newModerator) (UserInfo.promote info)))
        | None => ret tt
        end ;;;
        emit (ToRooms (rooms_arg roomId) []) "moderator-changed"
             (VObj [("newModeratorId", VStr newModerator);
                    ("newModeratorName",
                     Js.or (match newModInfo with
                            | Some info => UserInfo.name info
                            | None => VUndefined
                            end) (VStr "Unknown"))])
      else
        modify (with_roomModerators (fun m => JsMap.delete m roomId))
  end.

(** The [for (const roomId of rooms)] loop; the result says whether the
    listener has been suspended, that is, whether the server's clean-up
    has happened.  A peer-left sent before any [await] goes out while
    the server still has the socket in its rooms. *)
Fixpoint leave_rooms (sid : string) (userInfo : option UserInfo.t) (rooms : list value)
         (cleaned : bool) : M bool :=
  match rooms with
  | [] => ret cleaned
  | roomId :: rest =>
      st' <- read ;;
      let moderates := is_moderator st' roomId sid in
      when moderates (failover sid roomId cleaned) ;;;
      emit_closing sid (ToRooms (rooms_arg roomId) []) "peer-left"
           (VObj [("socketId", VStr sid); ("reason", VStr "disconnected");
                  ("userInfo", opt_info userInfo)]) ;;;
      leave_rooms sid userInfo rest (cleaned || moderates)
  end.

Definition on_disconnecting (sid : string) : M bool :=
  st <- read ;;
  let userInfo := JsMap.get (socketUserInfo st) (VStr sid) in
  let rooms := filter (fun r => negb (Js.eqb r (VStr sid))) (rooms_of st sid) in
  cleaned <- leave_rooms sid userInfo rooms false ;;
  modify (with_socketUserInfo (fun m => JsMap.delete m (VStr sid))) ;;;
  ret cleaned.

(** ** The coordinator as a machine

    One step per inbound event; a handler runs to its end before the next
    event is taken.  A disconnect is the [disconnecting] listener together
    with the server's own clean-up, which comes at the listener's first
    [await] or, when it has none, at its end; the flush timer is an event
    like the others. *)
Inductive Event : Type :=
| Connection (sid : string)
| UserMessage (sid : string) (msg : value) (t_emit : Z) (uuid : string) (t_push : Z)
| JoinRoom (sid : string) (msg : string)
| OfferToServer (sid : string) (payload : value)
| AnswerToServer (sid : string) (payload : value)
| IceCandidateToServer (sid : string) (payload : value)
| KickUser (sid : string) (payload : value)
| Disconnect (sid : string)
| FlushTick.

Definition handle (db : Db) (ev : Event) : M unit :=
  match ev with
  | Connection sid => transport_connect sid
  | UserMessage sid msg t_emit uuid t_push => on_user_message sid msg t_emit uuid t_push
  | JoinRoom sid msg => on_join_room db sid msg
  | OfferToServer sid payload => on_offer sid payload
  | AnswerToServer sid payload => on_answer sid payload
  | IceCandidateToServer sid payload => on_ice_candidate sid payload
  | KickUser sid payload => on_kick_user sid payload
  | Disconnect sid =>
      cleaned <- on_disconnecting sid ;;
      when (negb cleaned) (transport_close sid)
  | FlushTick => flushMessages db
  end.

Fixpoint run (db : Db) (evs : list Event) (st : State) : State :=
  match evs with
  | [] => st
  | ev :: evs' => run db evs' (final (handle db ev st))
  end.

End Handlers.

(** ** Instances of the built-ins for the worked examples

    [Json.parse] reads the JSON texts without string escapes beyond the
    two-character ones and with integer numbers; [lower] is
    [toLowerCase] on ASCII text. *)
Module Json.

Open Scope char_scope.

Definition is_ws (c : ascii) : bool :=
  match c with
  | " " | "009" | "010" | "013" => true
  | _ => false
  end.

Fixpoint skip_ws (l : list ascii) : list ascii :=
  match l with
  | c :: l' => if is_ws c then skip_ws l' else l
  | [] => []
  end.

Definition digit (c : ascii) : option Z :=
  let n := Z.of_nat (nat_of_ascii c) in
  if ((48 <=? n) && (n <=? 57))%Z then Some (n - 48)%Z else None.

Fixpoint digits (l : list ascii) (acc : Z) : Z * list ascii :=
  match l with
  | c :: l' =>
      match digit c with
      | Some d => digits l' (10 * acc + d)%Z
      | None => (acc, l)
      end
  | [] => (acc, [])
  end.

(** An optional minus sign, then 0 or a digit string without a leading
    zero; a fraction or an exponent is not read. *)
Definition natural (l : list ascii) : option (Z * list ascii) :=
  match l with
  | "0" :: l' =>
      match l' with
      | c :: _ => match digit c with Some _ => None | None => Some (0%Z, l') end
      | [] => Some (0%Z, l')
      end
  | c :: _ =>
      match digit c with
      | Some _ => Some (digits l 0%Z)
      | None => None
      end
  | [] => None
  end.

Definition number (l : list ascii) : option (Z * list ascii) :=
  match l with
  | "-" :: l' =>
      match natural l' with
      | Some (n, rest) => Some ((- n)%Z, rest)
      | None => None
      end
  | _ => natural l
  end.

Definition escape (c : ascii) : option ascii :=
  match c with
  | "034" => Some "034"
  | "\" => Some "\"
  | "/" => Some "/"
  | "b" => Some "008"
  | "f" => Some "012"
  | "n" => Some "010"
  | "r" => Some "013"
  | "t" => Some "009"
  | _ => None
  end.

(** The characters after an opening quote, up to the closing one. *)
Fixpoint chars (l : list ascii) : option (string * list ascii) :=
  match l with
  | [] => None
  | "034" :: rest => Some (EmptyString, rest)
  | "\" :: c :: rest =>
      match escape c, chars rest with
      | Some c', Some (s, rest') => Some (String c' s, rest')
      | _, _ => None
      end
  | c :: rest =>
      if (nat_of_ascii c <? 32)%nat then None
      else match chars rest with
           | Some (s, rest') => Some (String c s, rest')
           | None => None
           end
  end.

Fixpoint element (fuel : nat) (l : list ascii) {struct fuel}
  : option (value * list ascii) :=
  match fuel with
  | O => None
  | S fuel' =>
      match skip_ws l with
      | "n" :: "u" :: "l" :: "l" :: rest => Some (VNull, skip_ws rest)
      | "t" :: "r" :: "u" :: "e" :: rest => Some (VBool true, skip_ws rest)
      | "f" :: "a" :: "l" :: "s" :: "e" :: rest => Some (VBool false, skip_ws rest)
      | "034" :: rest =>
          match chars rest with
          | Some (s, rest') => Some (VStr s, skip_ws rest')
          | None => None
          end
      | "[" :: rest =>
          match skip_ws rest with
          | "]" :: rest' => Some (VArr [], skip_ws rest')
          | _ =>
              match elements fuel' rest with
              | Some (xs, rest') => Some (VArr xs, skip_ws rest')
              | None => None
              end
          end
      | "{" :: rest =>
          match skip_ws rest with
          | "}" :: rest' => Some (VObj [], skip_ws rest')
          | _ =>
              match members fuel' rest [] with
              | Some (fs, rest') => Some (VObj fs, skip_ws rest')
              | None => None
              end
          end
      | l' =>
          match number l' with
          | Some (n, rest) => Some (VNum n, skip_ws rest)
          | None => None
          end
      end
  end

with elements (fuel : nat) (l : list ascii) {struct fuel}
  : option (list value * list ascii) :=
  match fuel with
  | O => None
  | S fuel' =>
      match element fuel' l with
      | Some (x, "," :: rest) =>
          match elements fuel' rest with
          | Some (xs, rest') => Some (x :: xs, rest')
          | None => None
          end
      | Some (x, "]" :: rest) => Some ([x], rest)
      | _ => None
      end
  end

with members (fuel : nat) (l : list ascii) (acc : list (string * value)) {struct fuel}
  : option (list (string * value) * list ascii) :=
  match fuel with
  | O => None
  | S fuel' =>
      match skip_ws l with
      | "034" :: rest =>
          match chars rest with
          | Some (k, rest') =>
              match skip_ws rest' with
              | ":" :: rest'' =>
                  match element fuel' rest'' with
                  | Some (x, "," :: rest3) => members fuel' rest3 (Js.set_field acc k x)
                  | Some (x, "}" :: rest3) => Some (Js.set_field acc k x, rest3)
                  | _ => None
                  end
              | _ => None
              end
          | None => None
          end
      | _ => None
      end
  end.

Definition parse (text : string) : option value :=
  let l := list_ascii_of_string text in
  match element (S (List.length l)) l with
  | Some (v, []) => Some v
  | _ => None
  end.

(** Example texts are written with apostrophes for the double quotes. *)
Definition quoted (text : string) : string :=
  string_of_list_ascii
    (map (fun c => if Ascii.eqb c "'" then "034" else c) (list_ascii_of_string text)).

Definition lower_char (c : ascii) : ascii :=
  let n := nat_of_ascii c in
  if ((65 <=? n) && (n <=? 90))%nat then ascii_of_nat (n + 32) else c.

Fixpoint lower (s : string) : string :=
  match s with
  | EmptyString => EmptyString
  | String c s' => String (lower_char c) (lower s')
  end.

End Json.


(** ** Vocabulary of the properties *)

(** What [getMeetingCreatorEmail] returns for a room. *)
Definition creator_email_of (db : Db) (roomId : value) : option string :=
  match select_creator_email db roomId with
  | DbOk (creatorEmail :: _) => Some creatorEmail
  | _ => None
  end.

(** What [getMeetingCreatorEmail] writes to the console. *)
Definition creator_log (db : Db) (roomId : value) : list Effect :=
  match select_creator_email db roomId with
  | DbError => [Console LogError "Error getting meeting creator:" []]
  | DbOk _ => []
  end.

(** What [getMeetingId] answers for a room code, given the cache. *)
Definition lookup_id (db : Db) (cache : JsMap.t string) (code : value) : option string :=
  if JsMap.has cache code then JsMap.get cache code
  else match select_meeting_id db code with
       | DbOk (id :: _) => Some id
       | _ => None
       end.

(** The value of [isCreator] in the join handler, or the error raised
    while it is computed. *)
Definition creator_check (toLowerCase : string -> string)
           (creatorEmail : option string) (userEmail : value) : Outcome bool :=
  match creatorEmail with
  | None => Returned false
  | Some creatorEmail =>
      if Js.eqb userEmail (VStr EmptyString) then Returned false
      else match userEmail with
           | VStr s => Returned (String.eqb (toLowerCase creatorEmail) (toLowerCase s))
           | _ => Thrown TypeError
           end
  end.

(** The rows a flush of [msgs] hands to the database. *)
Definition batch_of (db : Db) (cache : JsMap.t string) (msgs : list BufferedMessage.t)
  : list MessageRow.t :=
  flat_map (fun msg =>
              match usable (lookup_id db cache (BufferedMessage.meetingCode msg)) with
              | Some id => [to_row msg id]
              | None => []
              end) msgs.

(** The messages of [msgs] a flush drops. *)
Definition dropped_of (db : Db) (cache : JsMap.t string) (msgs : list BufferedMessage.t)
  : list BufferedMessage.t :=
  filter (fun msg =>
            match usable (lookup_id db cache (BufferedMessage.meetingCode msg)) with
            | Some _ => false
            | None => true
            end) msgs.

(** The messages of [msgs] a flush keeps. *)
Definition kept_of (db : Db) (cache : JsMap.t string) (msgs : list BufferedMessage.t)
  : list BufferedMessage.t :=
  filter (fun msg =>
            match usable (lookup_id db cache (BufferedMessage.meetingCode msg)) with
            | Some _ => true
            | None => false
            end) msgs.

(** The inserts a flush issues for a batch: none for an empty one. *)
Definition written (batch : list MessageRow.t) : list (list MessageRow.t) :=
  match batch with
  | [] => []
  | _ => [batch]
  end.

(** Two caches that make [getMeetingId] answer alike. *)
Definition same_lookups (db : Db) (c1 c2 : JsMap.t string) : Prop :=
  forall code, lookup_id db c1 code = lookup_id db c2 code.

(** [st] with another chat buffer and another id cache. *)
Definition patch (st : State) (buf : list BufferedMessage.t) (cache : JsMap.t string) : State :=
  mkState (roomModerators st) (socketUserInfo st) cache buf (memberships st) (sockets st).

(** The record the join handler builds for the joiner. *)
Definition joiner_info (sid : string) (payload userEmail : value) (isCreator : bool)
  : UserInfo.t :=
  UserInfo.mk sid
    (Js.or (match Js.prop payload "userName" with Some x => x | None => VUndefined end)
           (VStr "Anonymous"))
    (Js.or userEmail (VStr EmptyString))
    (Js.or (match Js.prop payload "userImage" with Some x => x | None => VUndefined end)
           VUndefined)
    isCreator.

(** The state a completed join leaves. *)
Definition joined_state (st : State) (sid : string) (roomId : value)
           (userInfo : UserInfo.t) : State :=
  with_memberships (add_all sid (rooms_arg roomId))
    (with_socketUserInfo (fun m => JsMap.set m (VStr sid) userInfo)
       (if UserInfo.isModerator userInfo
        then with_roomModerators (fun m => JsMap.set m roomId sid) st
        else st)).

(** Projections of a trace. *)
Definition inserts (t : list Effect) : list (list MessageRow.t) :=
  flat_map (fun e => match e with DbInsert rows => [rows] | _ => [] end) t.

Definition warnings (t : list Effect) : list (list value) :=
  flat_map (fun e => match e with Console LogWarn _ args => [args] | _ => [] end) t.

Definition errors (t : list Effect) : list string :=
  flat_map (fun e => match e with Console LogError text _ => [text] | _ => [] end) t.

Definition is_joined (sid : string) (e : Effect) : bool :=
  match e with
  | Joined s _ => String.eqb s sid
  | _ => false
  end.

Definition is_sent (event : string) (e : Effect) : bool :=
  match e with
  | Sent _ _ ev _ => String.eqb ev event
  | _ => false
  end.

(** Position of the first effect satisfying [p]. *)
Fixpoint index_of (p : Effect -> bool) (t : list Effect) : option nat :=
  match t with
  | [] => None
  | e :: t' =>
      if p e then Some O
      else match index_of p t' with
           | Some i => Some (S i)
           | None => None
           end
  end.

Definition occurrences (p : Effect -> bool) (t : list Effect) : nat :=
  List.length (filter p t).

(** What the sender, content and time of a buffered message and of a row are. *)
Definition message_fields (msg : BufferedMessage.t) : string * string * value * value * Z :=
  (BufferedMessage.id msg, BufferedMessage.senderId msg, BufferedMessage.senderName msg,
   BufferedMessage.content msg, BufferedMessage.createdAt msg).

Definition row_fields (row : MessageRow.t) : string * string * value * value * Z :=
  (MessageRow.id row, MessageRow.senderId row, MessageRow.senderName row,
   MessageRow.content row, MessageRow.createdAt row).

(** The moderator tracker agrees with the membership index: a recorded
    moderator is a member of its room (so a room without members has no
    entry). *)
Definition moderators_are_members (st : State) : Prop :=
  forall roomId moderator,
    JsMap.get (roomModerators st) roomId = Some moderator ->
    In moderator (members st roomId).

(** ** A flush interleaved with chat events

    [flushMessages] is suspended at the [await] of every loop turn; the
    chat handler can run in between.  [Turn] lets the flush take its next
    loop turn, [Chat] runs one [user-message] handler to its end.  No
    listener catches what it throws: an exception of the chat handler
    ends the run, the flush in flight with it. *)
Record Flush : Type := mkFlush {
  todo : list BufferedMessage.t;          (* rest of messagesToSave *)
  validMessages : list MessageRow.t
}.

Inductive Step : Type :=
| Turn
| Chat (sid : string) (msg : value) (t_emit : Z) (uuid : string) (t_push : Z).

Section Interleaving.

Variable toISOString : Z -> string.

Fixpoint interleave (db : Db) (sched : list Step) (fl : Flush) : M Flush :=
  match sched with
  | [] => ret fl
  | Turn :: sched' =>
      match todo fl with
      | [] => interleave db sched' fl
      | msg :: rest =>
          valid <- resolve_one db (validMessages fl) msg ;;
          interleave db sched' (mkFlush rest valid)
      end
  | Chat sid msg t_emit uuid t_push :: sched' =>
      on_user_message toISOString sid msg t_emit uuid t_push ;;;
      interleave db sched' fl
  end.

Definition chats_only (sched : list Step) : M unit :=
  for_each sched (fun s =>
    match s with
    | Turn => ret tt
    | Chat sid msg t_emit uuid t_push =>
        on_user_message toISOString sid msg t_emit uuid t_push
    end).

(** A flush started in [st] with [sched] happening while it is in flight. *)
Definition concurrent_flush (db : Db) (sched : list Step) : M unit :=
  st <- read ;;
  match messageBuffer st with
  | [] => chats_only sched
  | _ =>
      messagesToSave <- take_buffer ;;
      fl <- interleave db sched (mkFlush messagesToSave []) ;;
      valid <- resolve_all db (todo fl) (validMessages fl) ;;
      write_batch db valid
  end.

End Interleaving.

(** The record a chat event appends to the buffer. *)
Definition enqueued_by (s : Step) : list BufferedMessage.t :=
  match s with
  | Turn => []
  | Chat sid msg t_emit uuid t_push =>
      match Js.prop msg "roomId", Js.prop msg "text", Js.prop msg "senderName" with
      | Some roomId, Some text, Some senderName =>
          [BufferedMessage.mk uuid roomId sid
             (Js.or senderName (VStr "Anonymous")) text t_push]
      | _, _, _ => []
      end
  end.

Definition enqueued (sched : list Step) : list BufferedMessage.t :=
  flat_map enqueued_by sched.

(** A step that enqueues: a flush turn, or a chat event whose payload the
    handler can destructure. *)
Definition enqueues (s : Step) : Prop :=
  match s with
  | Turn => True
  | Chat _ msg _ _ _ => Js.prop msg "roomId" <> None
  end.

(** ** Worked scenario: room [abc-defg-hij] created by [A@x.com] *)
Module Scenario.

Definition room : value := VStr "abc-defg-hij".

Definition db : Db :=
  mkDb (fun code => if Js.eqb code room then DbOk ["A@x.com"] else DbOk [])
       (fun code => if Js.eqb code room then DbOk ["meeting_1"] else DbOk [])
       (fun _ => DbOk tt).

Definition epoch (_ : Z) : string := "1970-01-01T00:00:00.000Z".

Definition run : list Event -> State -> State := run Json.parse Json.lower epoch db.
Definition join : string -> string -> M unit := on_join_room Json.parse Json.lower db.

Definition creator_joins : string :=
  Json.quoted "{'roomId':'abc-defg-hij','userEmail':'a@x.com','userName':'Ann'}".

Definition guest_joins : string :=
  Json.quoted "{'roomId':'abc-defg-hij','userEmail':'b@x.com','userName':'Bob'}".

Definition anonymous_joins : string :=
  Json.quoted "{'roomId':'abc-defg-hij','userName':'Eve'}".

(** Two connections, both joined: [A] as the creator, [B] as a guest. *)
Definition two_in_room : State :=
  run [Connection "A"; Connection "B"; JoinRoom "A" creator_joins;
       JoinRoom "B" guest_joins] initial.

Definition candidate : value :=
  VObj [("to", VStr "B"); ("candidate", VStr "candidate:1 1 udp 1 10.0.0.1 9 typ host")].

Definition chat (text : string) : value :=
  VObj [("roomId", room); ("text", VStr text)].

Definition joins_A : value :=
  VObj [("roomId", room); ("userEmail", VStr "a@x.com"); ("userName", VStr "Ann")].

(** [A] alone, connected and not yet in the room. *)
Definition lobby : State := run [Connection "A"] initial.

(** [A] in the room as moderator, [B] connected and not yet in the room. *)
Definition before_B : State :=
  run [Connection "A"; Connection "B"; JoinRoom "A" creator_joins] initial.

(** Both in the room, one chat message each waiting for the next flush. *)
Definition chatting : State :=
  run [UserMessage "A" (chat "hi") 0 "m1" 0; UserMessage "B" (chat "yo") 5 "m2" 5]
      two_in_room.

End Scenario.

(** ** Vocabulary of the further properties *)

(** A computation that takes every state to one related to it by [q],
    whether it returns or throws. *)
Definition keeps {A} (q : State -> State -> Prop) (c : M A) : Prop :=
  forall st, q st (final (c st)).

(** Chat buffer and id cache as they were. *)
Definition same_store (st st' : State) : Prop :=
  meetingIdMap st' = meetingIdMap st /\ messageBuffer st' = messageBuffer st.

(** Moderator tracker, registry, membership index and connections as they were. *)
Definition same_rooms (st st' : State) : Prop :=
  roomModerators st' = roomModerators st /\
  socketUserInfo st' = socketUserInfo st /\
  memberships st' = memberships st /\
  sockets st' = sockets st.

(** The events handled by the chat path: [user-message] and the flush timer. *)
Definition store_event (ev : Event) : bool :=
  match ev with
  | UserMessage _ _ _ _ _ | FlushTick => true
  | _ => false
  end.

(** The events that manage connections and rooms. *)
Definition room_event (ev : Event) : bool :=
  match ev with
  | Connection _ | JoinRoom _ _ | KickUser _ _ | Disconnect _ => true
  | _ => false
  end.

(** Every cached id is one the database gave for that code. *)
Definition cache_sound (db : Db) (cache : JsMap.t string) : Prop :=
  forall code id,
    JsMap.get cache code = Some id ->
    exists rows, select_meeting_id db code = DbOk (id :: rows).

(** Soundness of the cache is not lost. *)
Definition keeps_sound (db : Db) (st st' : State) : Prop :=
  cache_sound db (meetingIdMap st) -> cache_sound db (meetingIdMap st').

(** The room a join-room message names, when it can be read. *)
Definition room_of (JSON_parse : string -> option value) (msg : string) : option value :=
  match JSON_parse msg with
  | Some payload => Js.prop payload "roomId"
  | None => None
  end.

(** *** Moderator hand-over *)

(** The socket [failover] picks for a room: the first connected member
    other than the one that leaves. *)
Definition successor_of (st : State) (sid : string) (roomId : value) : option string :=
  hd_error (filter (fun s => negb (String.eqb s sid)) (apply st (rooms_arg roomId) [])).

(** What [failover] does to the state. *)
Definition promote_successor (sid : string) (roomId : value) (st : State) : State :=
  match successor_of st sid roomId with
  | None => st
  | Some successor =>
      if Js.truthy (VStr successor) then
        match JsMap.get (socketUserInfo st) (VStr successor) with
        | Some info =>
            with_socketUserInfo
              (fun m => JsMap.set m (VStr successor) (UserInfo.promote info))
              (with_roomModerators (fun m => JsMap.set m roomId successor) st)
        | None => with_roomModerators (fun m => JsMap.set m roomId successor) st
        end
      else with_roomModerators (fun m => JsMap.delete m roomId) st
  end.

(** What one turn of the disconnecting loop does to the state. *)
Definition hand_over (sid : string) (roomId : value) (st : State) : State :=
  if is_moderator st roomId sid then promote_successor sid roomId st else st.

(** The state after the whole loop. *)
Definition hand_over_all (sid : string) (rooms : list value) (st : State) : State :=
  fold_left (fun s r => hand_over sid r s) rooms st.

(** The state once the server has taken [sid] out of its rooms and
    forgotten it. *)
Definition cleaned_up (sid : string) (st : State) : State :=
  with_sockets (filter (fun s => negb (String.eqb s sid)))
    (with_memberships (filter (fun p => negb (String.eqb (fst p) sid))) st).

(** The state the listener works on, given the state it would work on
    without the server's clean-up. *)
Definition as_left (sid : string) (cleaned : bool) (st : State) : State :=
  if cleaned then cleaned_up sid st else st.

(** Everybody but [sid]. *)
Definition others (sid : string) (l : list string) : list string :=
  filter (fun s => negb (String.eqb s sid)) l.

(** What [failover] sends. *)
Definition hand_over_trace (sid : string) (roomId : value) (st : State) : list Effect :=
  match successor_of st sid roomId with
  | None => []
  | Some successor =>
      if Js.truthy (VStr successor) then
        [Sent (ToRooms (rooms_arg roomId) []) (others sid (apply st (rooms_arg roomId) []))
              "moderator-changed"
              (VObj [("newModeratorId", VStr successor);
                     ("newModeratorName",
                      Js.or (match JsMap.get (socketUserInfo st) (VStr successor) with
                             | Some info => UserInfo.name info
                             | None => VUndefined
                             end) (VStr "Unknown"))])]
      else []
  end.

(** The peer-left event of one room. *)
Definition peer_left (sid : string) (userInfo : option UserInfo.t) (st : State)
           (roomId : value) : Effect :=
  Sent (ToRooms (rooms_arg roomId) []) (others sid (apply st (rooms_arg roomId) []))
       "peer-left"
       (VObj [("socketId", VStr sid); ("reason", VStr "disconnected");
              ("userInfo", opt_info userInfo)]).

(** What the loop sends, and whether it is suspended on its way. *)
Fixpoint leave_trace (sid : string) (userInfo : option UserInfo.t) (rooms : list value)
         (st : State) : list Effect :=
  match rooms with
  | [] => []
  | roomId :: rest =>
      (if is_moderator st roomId sid then hand_over_trace sid roomId st else []) ++
      peer_left sid userInfo st roomId ::
      leave_trace sid userInfo rest (hand_over sid roomId st)
  end.

Fixpoint suspended (sid : string) (rooms : list value) (st : State) : bool :=
  match rooms with
  | [] => false
  | roomId :: rest =>
      is_moderator st roomId sid || suspended sid rest (hand_over sid roomId st)
  end.

(** The departing moderator can be replaced in every room it moderates:
    the room is not the one named by its own id, is a single room, and
    has another connected member. *)
Definition can_hand_over (st : State) (sid : string) : Prop :=
  forall r,
    JsMap.get (roomModerators st) r = Some sid ->
    r <> VStr sid /\ rooms_arg r = [r] /\
    exists s, s <> sid /\ In s (members st r) /\ mem s (sockets st) = true.

(** The rooms the disconnecting handler walks through. *)
Definition rooms_left (st : State) (sid : string) : list value :=
  filter (fun r => negb (Js.eqb r (VStr sid))) (rooms_of st sid).

(** A map as a JavaScript [Map] holds it: no key twice. *)
Fixpoint unique_keys {V} (m : JsMap.t V) : Prop :=
  match m with
  | [] => True
  | (k, _) :: m' => JsMap.get m' k = None /\ unique_keys m'
  end.

(** What holds of the state [s] while the disconnecting loop for [sid],
    started in [st], still has the rooms [rest] to visit. *)
Definition handing_over (st : State) (sid : string) (rest : list value) (s : State) : Prop :=
  memberships s = memberships st /\
  sockets s = sockets st /\
  (forall r m, JsMap.get (roomModerators s) r = Some m -> In m (members st r)) /\
  (forall r, JsMap.get (roomModerators s) r = Some sid ->
             In r rest /\ JsMap.get (roomModerators st) r = Some sid).

(** *** Runs that keep rooms moderated *)

(** Connections as they were. *)
Definition same_sockets (st st' : State) : Prop := sockets st' = sockets st.

Section SafeRuns.

Variable JSON_parse : string -> option value.
Variable toLowerCase : string -> string.
Variable toISOString : Z -> string.
Variable db : Db.

(** An event after which every recorded moderator is still in its room:
    ids are not empty, a join names a single room, and a socket that
    disconnects can be replaced wherever it is the moderator. *)
Definition safe_event (st : State) (ev : Event) : Prop :=
  match ev with
  | Connection sid => sid <> EmptyString
  | JoinRoom _ msg => forall items, room_of JSON_parse msg <> Some (VArr items)
  | Disconnect sid => can_hand_over st sid
  | _ => True
  end.

Fixpoint safe_run (evs : list Event) (st : State) : Prop :=
  match evs with
  | [] => True
  | ev :: evs' =>
      safe_event st ev /\
      safe_run evs' (final (handle JSON_parse toLowerCase toISOString db ev st))
  end.

End SafeRuns.

(** ** The earlier socket module (lines 330-386)

    The same events without identities: no moderator tracker, no
    registry, no chat. *)
Module Legacy.

Section Handlers.

Variable JSON_parse : string -> option value.

(** [socket.on("join-room", ...)] (lines 343-364) *)
Definition on_join_room (sid : string) (msg : string) : M unit :=
  payload <- json_parse JSON_parse msg ;;
  roomId <- get_prop payload "roomId" ;;
  socket_join sid roomId ;;;
  emit (ToRooms (rooms_arg roomId) [VStr sid]) "peer-joined"
       (VObj [("socketId", VStr sid)]) ;;;
  existingPeers <- fetchSockets roomId ;;
  let participantsInfo :=
    map (fun s => VObj [("socketId", VStr s)])
        (filter (fun s => negb (String.eqb s sid)) existingPeers) in
  emit (ToSocket sid) "existing-participants" (VArr participantsInfo).

(** [offer-to-server], [answer-to-server], [ice-candidate-to-server]
    (lines 366-376) *)
Definition relay (event : string) (payload : value) : M unit :=
  to <- get_prop payload "to" ;;
  emit (ToRooms (rooms_arg to) []) event payload.

Definition on_offer (payload : value) : M unit := relay "offer" payload.

Definition on_answer (payload : value) : M unit := relay "answer" payload.

Definition on_ice_candidate (payload : value) : M unit := relay "ice-candidate" payload.

(** [socket.on("disconnecting", ...)] (lines 378-385) *)
Definition on_disconnecting (sid : string) : M unit :=
  st <- read ;;
  let rooms := filter (fun r => negb (Js.eqb r (VStr sid))) (rooms_of st sid) in
  for_each rooms (fun roomId =>
    emit (ToRooms (rooms_arg roomId) [VStr sid]) "peer-left"
         (VObj [("socketId", VStr sid)])).

End Handlers.

End Legacy.

(** Who is sent which event, in order: a trace without its payloads,
    joins and console lines. *)
Definition envelopes (t : list Effect) : list (Address * list string * string) :=
  flat_map (fun e => match e with
                     | Sent to received_by event _ => [(to, received_by, event)]
                     | _ => []
                     end) t.

(** ** Meeting codes (services/meetingService.ts, middleware validation)

    The codes the service hands out and the check the route
    [GET /api/meetings/:code] puts in front of its handler. *)
Module Meetings.

Definition chars : string := "abcdefghijklmnopqrstuvwxyz".

(** [s.charAt(i)]: the empty string out of range. *)
Definition charAt (s : string) (i : nat) : string :=
  match String.get i s with
  | Some c => String c EmptyString
  | None => EmptyString
  end.

Definition is_lower (c : ascii) : bool :=
  ((97 <=? nat_of_ascii c) && (nat_of_ascii c <=? 122))%nat.

Definition is_upper_or_digit (c : ascii) : bool :=
  ((65 <=? nat_of_ascii c) && (nat_of_ascii c <=? 90)
   || (48 <=? nat_of_ascii c) && (nat_of_ascii c <=? 57))%nat.

(** [toUpperCase] on the characters of ASCII. *)
Definition upper_char (c : ascii) : ascii :=
  if is_lower c then ascii_of_nat (nat_of_ascii c - 32) else c.

Fixpoint upper (s : string) : string :=
  match s with
  | EmptyString => EmptyString
  | String c s' => String (upper_char c) (upper s')
  end.

Definition ascii_only (s : string) : bool :=
  forallb (fun c => (nat_of_ascii c <? 128)%nat) (list_ascii_of_string s).

(** [new AppError(message, statusCode, { code, ... })] *)
Record AppError : Type := mkAppError {
  message : string;
  statusCode : nat;
  code : string
}.

Section Service.

(** [draw n] is [Math.floor(Math.random() * chars.length)] at the [n]-th
    call of [Math.random] (a number of [0 .. 25], the random number being
    in [0, 1)); [isCodeActiveAndValid k code] is the answer of the query
    of lines 31-45 at the [k]-th check. *)
Variable draw : nat -> nat.
Variable isCodeActiveAndValid : nat -> string -> bool.

(** [for (let i = 0; i < count; i++) code += chars.charAt(...)], from
    the [n]-th call of [Math.random] on. *)
Fixpoint letters (count : nat) (code : string) (n : nat) : string * nat :=
  match count with
  | O => (code, n)
  | S count' => letters count' (String.append code (charAt chars (draw n))) (S n)
  end.

(** [generateMeetingCode] (lines 6-28): the code and the number of
    calls of [Math.random] so far. *)
Definition generateMeetingCode (n : nat) : string * nat :=
  let (code, n) := letters 3 EmptyString n in
  let code := String.append code "-" in
  let (code, n) := letters 4 code n in
  let code := String.append code "-" in
  letters 3 code n.

Definition maxAttempts : nat := 10.

(** The [while (attempts < maxAttempts)] loop of lines 63-70 with
    [left = maxAttempts - attempts] turns to go; [None] is the Error
    thrown after the loop. *)
Fixpoint retry (left attempts : nat) (code : string) (n : nat) : option string * nat :=
  match left with
  | O => (None, n)
  | S left' =>
      let isActive := isCodeActiveAndValid attempts code in
      if negb isActive then (Some code, n)
      else
        let (code', n') := generateMeetingCode n in
        retry left' (S attempts) code' n'
  end.

(** [generateUniqueMeetingCode] (lines 56-75), after
    [deactivateExpiredMeetings]. *)
Definition generateUniqueMeetingCode (n : nat) : option string * nat :=
  let (code, n) := generateMeetingCode n in
  retry maxAttempts 0 code n.

End Service.

(** [/^[A-Z0-9]{6}$/.test(code)] *)
Definition validateMeetingCode (code : string) : bool :=
  (String.length code =? 6)%nat && forallb is_upper_or_digit (list_ascii_of_string code).

(** [validateMeetingCodeParam]: the error thrown, or the code stored
    back in [req.params] before [next()]. *)
Definition validateMeetingCodeParam (toUpperCase : string -> string)
           (param : option string) : AppError + string :=
  let invalid := mkAppError "Invalid meeting code format" 400 "INVALID_MEETING_CODE" in
  match option_map toUpperCase param with
  | None => inl invalid
  | Some code =>
      if String.eqb code EmptyString || negb (validateMeetingCode code)
      then inl invalid
      else inr code
  end.

(** The [k]-th code generated from the [n]-th call of [Math.random] on. *)
Definition candidate (draw : nat -> nat) (n k : nat) : string :=
  fst (generateMeetingCode draw (n + 10 * k)).

End Meetings.

(** ** Further worked examples *)

Module Examples.

(** A database that fails every query. *)
Definition down : Db :=
  mkDb (fun _ => DbError) (fun _ => DbError) (fun _ => DbError).

(** [A] asks to remove [B] from the room; [Z] is no connection. *)
Definition kick_B : value :=
  VObj [("roomId", Scenario.room); ("targetSocketId", VStr "B")].

Definition kick_Z : value :=
  VObj [("roomId", Scenario.room); ("targetSocketId", VStr "Z")].

(** A join for a room nobody created. *)
Definition joins_other : string :=
  Json.quoted "{'roomId':'xyz','userEmail':'a@x.com','userName':'Ann'}".

Definition joins_other_payload : value :=
  VObj [("roomId", VStr "xyz"); ("userEmail", VStr "a@x.com"); ("userName", VStr "Ann")].

(** The guest joins again under another name. *)
Definition rejoins : string :=
  Json.quoted "{'roomId':'abc-defg-hij','userEmail':'b@x.com','userName':'Bobby'}".

Definition rejoins_payload : value :=
  VObj [("roomId", Scenario.room); ("userEmail", VStr "b@x.com");
        ("userName", VStr "Bobby")].

(** A third connection [C] has joined the room named by the id of [B]. *)
Definition listens_to_B : string :=
  Json.quoted "{'roomId':'B','userEmail':'c@x.com','userName':'Cy'}".

Definition overheard : State :=
  Scenario.run [Connection "C"; JoinRoom "C" listens_to_B] Scenario.two_in_room.

(** Both join, then the moderator goes. *)
Definition session : list Event :=
  [Connection "A"; Connection "B"; JoinRoom "A" Scenario.creator_joins;
   JoinRoom "B" Scenario.guest_joins; Disconnect "A"].

(** Random indices that spell the alphabet. *)
Definition alphabet (k : nat) : nat := k mod 26.

End Examples.

(** * Properties *)

(** ** Values and maps *)

Lemma eqb_eq (a b : value) : Js.eqb a b = true <-> a = b.
Proof.
  revert b. induction a as [ | | x | x | x | xs IH | fs IH] using value_nested_ind;
    intros [ | | y | y | y | ys | gs]; simpl; try (split; congruence).
  - rewrite Bool.eqb_true_iff. split; congruence.
  - rewrite Z.eqb_eq. split; congruence.
  - rewrite String.eqb_eq. split; congruence.
  - revert ys. induction IH as [ | x xs Hx _ IHxs]; intros [ | y ys];
      try (split; congruence).
    rewrite andb_true_iff, Hx. specialize (IHxs ys).
    split.
    + intros [-> H]. apply IHxs in H. congruence.
    + intros H. injection H as -> H. split; [reflexivity | ].
      apply IHxs. congruence.
  - revert gs. induction IH as [ | [k x] fs Hx _ IHfs]; intros [ | [k' y] gs];
      try (split; congruence).
    simpl in Hx. rewrite !andb_true_iff, String.eqb_eq, Hx. specialize (IHfs gs).
    split.
    + intros [[-> ->] H]. apply IHfs in H. congruence.
    + intros H. injection H as -> -> H. repeat split.
      apply IHfs. congruence.
Qed.

Lemma eqb_refl (a : value) : Js.eqb a a = true.
Proof. now apply eqb_eq. Qed.

Lemma eqb_neq (a b : value) : Js.eqb a b = false <-> a <> b.
Proof.
  rewrite <- eqb_eq. destruct (Js.eqb a b); split; congruence.
Qed.

Lemma get_set_same {V} (m : JsMap.t V) k v : JsMap.get (JsMap.set m k v) k = Some v.
Proof.
  induction m as [ | [k' x] m IH]; simpl.
  - now rewrite eqb_refl.
  - destruct (Js.eqb k' k) eqn:E; simpl; rewrite E; auto.
Qed.

Lemma get_set_other {V} (m : JsMap.t V) k k' v :
  k <> k' -> JsMap.get (JsMap.set m k v) k' = JsMap.get m k'.
Proof.
  intros Hne. induction m as [ | [k0 x] m IH]; simpl.
  - apply eqb_neq in Hne. now rewrite Hne.
  - destruct (Js.eqb k0 k) eqn:E; simpl.
    + apply eqb_eq in E. subst k0. apply eqb_neq in Hne. now rewrite Hne.
    + destruct (Js.eqb k0 k'); auto.
Qed.

Lemma assoc_set_field_same fs k v : Js.assoc k (Js.set_field fs k v) = Some v.
Proof.
  induction fs as [ | [k' x] fs IH]; simpl.
  - now rewrite String.eqb_refl.
  - destruct (String.eqb k k') eqn:E; simpl; rewrite E; auto.
Qed.

Lemma assoc_set_field_other fs k k' v :
  k <> k' -> Js.assoc k' (Js.set_field fs k v) = Js.assoc k' fs.
Proof.
  intros Hne. induction fs as [ | [k0 x] fs IH]; simpl.
  - apply String.eqb_neq in Hne. rewrite String.eqb_sym. now rewrite Hne.
  - destruct (String.eqb k k0) eqn:E; simpl.
    + apply String.eqb_eq in E. subst k0.
      apply String.eqb_neq in Hne. rewrite String.eqb_sym. now rewrite Hne.
    + destruct (String.eqb k' k0); auto.
Qed.

(** A value that has one property has them all: only [null] and
    [undefined] refuse. *)
Lemma prop_total v k x k' : Js.prop v k = Some x -> exists y, Js.prop v k' = Some y.
Proof. destruct v; simpl; intros H; try discriminate; eauto. Qed.

(** ** Transport *)

Lemma mem_In s l : mem s l = true <-> In s l.
Proof.
  unfold mem. rewrite existsb_exists. split.
  - intros [x [Hin Heq]]. apply String.eqb_eq in Heq. now subst.
  - intros H. exists s. split; [assumption | apply String.eqb_refl].
Qed.

(** Nobody of an excepted room receives. *)
Lemma apply_excludes st rooms except s room :
  In room except -> In s (members st room) -> ~ In s (apply st rooms except).
Proof.
  intros Hroom Hs Hin. unfold apply in Hin. apply filter_In in Hin.
  destruct Hin as [_ Hin]. apply andb_true_iff in Hin. destruct Hin as [Hin _].
  apply negb_true_iff in Hin.
  assert (Hex : mem s (flat_map (members st) except) = true).
  { apply mem_In. apply in_flat_map. eauto. }
  congruence.
Qed.

(** The room named by a connection id reaches that connection alone, as
    long as nobody else joined it. *)
Lemma apply_own_room st target :
  members st (VStr target) = [target] ->
  mem target (sockets st) = true ->
  apply st [VStr target] [] = [target].
Proof.
  intros Hm Hs. unfold apply. cbn. rewrite Hm. cbn. now rewrite Hs.
Qed.

Lemma add_all_keeps sid rooms ms s r :
  existsb (fun p => String.eqb (fst p) s && Js.eqb (snd p) r) ms = true ->
  existsb (fun p => String.eqb (fst p) s && Js.eqb (snd p) r) (add_all sid rooms ms) = true.
Proof.
  unfold add_all. revert ms. induction rooms as [ | r0 rooms IH]; intros ms H; simpl.
  - exact H.
  - apply IH.
    destruct (existsb (fun p => String.eqb (fst p) sid && Js.eqb (snd p) r0) ms);
      [exact H | ].
    rewrite existsb_app, H. reflexivity.
Qed.

Lemma add_all_cons sid r rooms ms :
  add_all sid (r :: rooms) ms =
  add_all sid rooms
    (if existsb (fun p => String.eqb (fst p) sid && Js.eqb (snd p) r) ms
     then ms else ms ++ [(sid, r)]).
Proof. reflexivity. Qed.

(** After [socket.join] the socket is in every room it named. *)
Lemma add_all_adds sid rooms ms r :
  In r rooms ->
  existsb (fun p => String.eqb (fst p) sid && Js.eqb (snd p) r) (add_all sid rooms ms) = true.
Proof.
  revert ms. induction rooms as [ | r0 rooms IH]; intros ms Hin; [contradiction | ].
  rewrite add_all_cons. destruct Hin as [-> | Hin]; [ | now apply IH].
  apply add_all_keeps.
  destruct (existsb (fun p => String.eqb (fst p) sid && Js.eqb (snd p) r) ms) eqn:E;
    [exact E | ].
  rewrite existsb_app. cbn. rewrite String.eqb_refl, eqb_refl.
  now rewrite orb_true_r.
Qed.

Lemma is_member_In st s room : is_member st s room = true <-> In s (members st room).
Proof.
  unfold is_member, members. rewrite existsb_exists, in_map_iff. split.
  - intros [p [Hin Hp]]. apply andb_true_iff in Hp. destruct Hp as [Hs Hr].
    apply String.eqb_eq in Hs. exists p. split; [assumption | ].
    apply filter_In. auto.
  - intros [p [Hs Hin]]. apply filter_In in Hin. destruct Hin as [Hin Hr].
    exists p. split; [assumption | ]. rewrite Hr, Hs, String.eqb_refl. reflexivity.
Qed.

Lemma uniq_In seen l x : In x (uniq seen l) -> In x l.
Proof.
  revert seen. induction l as [ | y l IH]; intros seen H; [contradiction | ].
  cbn in H. destruct (mem y seen).
  - right. eapply IH. eassumption.
  - destruct H as [-> | H]; [now left | right; eapply IH; eassumption].
Qed.

Lemma In_uniq seen l x : In x l -> mem x seen = false -> In x (uniq seen l).
Proof.
  revert seen. induction l as [ | y l IH]; intros seen Hin Hseen; [contradiction | ].
  cbn. destruct (String.eqb x y) eqn:E.
  - apply String.eqb_eq in E. subst y. rewrite Hseen. now left.
  - destruct Hin as [-> | Hin]; [now rewrite String.eqb_refl in E | ].
    destruct (mem y seen).
    + now apply IH.
    + right. apply IH; [assumption | ]. cbn. rewrite E. exact Hseen.
Qed.

(** Whoever receives an emit to named rooms is a connected member of one
    of them. *)
Lemma apply_sound st room rooms except s :
  In s (apply st (room :: rooms) except) ->
  mem s (sockets st) = true /\
  exists r, In r (room :: rooms) /\ In s (members st r).
Proof.
  unfold apply. intros H. apply filter_In in H. destruct H as [Hin Hf].
  apply andb_true_iff in Hf. destruct Hf as [_ Hconn]. split; [assumption | ].
  apply uniq_In in Hin. apply in_flat_map in Hin. exact Hin.
Qed.

(** Every connected member of a room receives an emit to it. *)
Lemma apply_complete st room s :
  In s (members st room) -> mem s (sockets st) = true -> In s (apply st [room] []).
Proof.
  intros Hin Hconn. unfold apply. apply filter_In. split.
  - apply In_uniq; [ | reflexivity]. cbn. now rewrite app_nil_r.
  - cbn. now rewrite Hconn.
Qed.

Lemma apply_ext st1 st2 rooms except :
  memberships st1 = memberships st2 -> sockets st1 = sockets st2 ->
  apply st1 rooms except = apply st2 rooms except.
Proof.
  intros Hm Hs. unfold apply, members. now rewrite Hm, Hs.
Qed.

Lemma existsb_filter_same {A} (p : A -> bool) l :
  existsb p (filter (fun x => negb (p x)) l) = false.
Proof.
  induction l as [ | x l IH]; [reflexivity | ].
  cbn. destruct (p x) eqn:E; cbn; [exact IH | now rewrite E].
Qed.

Lemma existsb_filter_other {A} (p q : A -> bool) l :
  (forall x, p x = true -> q x = true) ->
  existsb p (filter q l) = existsb p l.
Proof.
  intros H. induction l as [ | x l IH]; [reflexivity | ].
  cbn. destruct (q x) eqn:E; cbn.
  - now rewrite IH.
  - rewrite IH. destruct (p x) eqn:Ep; [ | reflexivity].
    rewrite (H x Ep) in E. discriminate.
Qed.

(** ** Reading handler runs *)

Ltac unfold_run :=
  repeat (progress (unfold bind, read, ret, throw, modify, effect, emit, when;
                    cbn beta iota)).

Lemma patch_same st : patch st (messageBuffer st) (meetingIdMap st) = st.
Proof. now destruct st. Qed.

Lemma inserts_app t1 t2 : inserts (t1 ++ t2) = inserts t1 ++ inserts t2.
Proof. unfold inserts. apply flat_map_app. Qed.

Lemma warnings_app t1 t2 : warnings (t1 ++ t2) = warnings t1 ++ warnings t2.
Proof. unfold warnings. apply flat_map_app. Qed.

Lemma errors_app t1 t2 : errors (t1 ++ t2) = errors t1 ++ errors t2.
Proof. unfold errors. apply flat_map_app. Qed.

(** ** Moderator tracker and membership index *)

Lemma filter_none {A} (p : A -> bool) (l : list A) :
  (forall x, In x l -> p x = false) -> filter p l = [].
Proof.
  induction l as [ | x l IH]; intros H; [reflexivity | ].
  cbn. rewrite (H x (or_introl eq_refl)). apply IH. intros y Hy. apply H. now right.
Qed.

(** When the departing moderator is the only socket left in the room,
    [failover] does nothing of its own: it neither names a successor
    nor forgets the room, and sends nothing. *)
Lemma failover_alone st sid roomId cleaned :
  (forall s, In s (apply st (rooms_arg roomId) []) -> s = sid) ->
  failover sid roomId cleaned st = mkRun (Returned tt) (final (suspend sid cleaned st)) [].
Proof.
  intros Halone. unfold failover, fetchSockets, suspend, transport_close.
  assert (Hnone : filter (fun s => negb (String.eqb s sid)) (apply st (rooms_arg roomId) [])
                  = []).
  { apply filter_none. intros s Hs. rewrite (Halone s Hs). now rewrite String.eqb_refl. }
  destruct cleaned; unfold_run; rewrite Hnone; reflexivity.
Qed.

(** C1, on the code: the creator joins a room, becomes its moderator and
    disconnects while alone in it.  [failover] finds no other socket and
    leaves the tracker alone, so it keeps naming the departed connection
    for a room that has no member left. *)
Theorem last_moderator_leaves_stale_entry :
  let st := Scenario.run [Connection "A"; JoinRoom "A" Scenario.creator_joins;
                          Disconnect "A"] initial in
  members st Scenario.room = [] /\
  JsMap.get (roomModerators st) Scenario.room = Some "A" /\
  ~ moderators_are_members st.
Proof.
  cbv zeta. split; [reflexivity | ]. split; [reflexivity | ].
  intros Hinv. exact (Hinv Scenario.room "A" eq_refl).
Qed.

(** ** Join *)

Section JoinProperties.

Variable JSON_parse : string -> option value.
Variable toLowerCase : string -> string.
Variable db : Db.

Lemma getMeetingCreatorEmail_run roomId st :
  getMeetingCreatorEmail db roomId st =
  mkRun (Returned (creator_email_of db roomId)) st (creator_log db roomId).
Proof.
  unfold getMeetingCreatorEmail, creator_email_of, creator_log.
  destruct (select_creator_email db roomId) as [[ | e rows] | ]; reflexivity.
Qed.

Lemma is_creator_run creatorEmail userEmail st :
  is_creator toLowerCase creatorEmail userEmail st =
  mkRun (creator_check toLowerCase creatorEmail userEmail) st [].
Proof.
  unfold is_creator, creator_check. destruct creatorEmail as [c | ]; [ | reflexivity].
  destruct (Js.eqb userEmail (VStr EmptyString)); [reflexivity | ].
  destruct userEmail; reflexivity.
Qed.

(** The whole run of a join that gets past parsing and the creator check. *)
Lemma join_run st sid msg payload roomId userEmail isCreator :
  JSON_parse msg = Some payload ->
  Js.prop payload "roomId" = Some roomId ->
  Js.prop payload "userEmail" = Some userEmail ->
  creator_check toLowerCase (creator_email_of db roomId) userEmail = Returned isCreator ->
  let userInfo := joiner_info sid payload userEmail isCreator in
  let st' := joined_state st sid roomId userInfo in
  on_join_room JSON_parse toLowerCase db sid msg st =
  mkRun (Returned tt) st'
    (creator_log db roomId ++
     [Joined sid (rooms_arg roomId);
      Sent (ToRooms (rooms_arg roomId) [VStr sid])
           (apply st' (rooms_arg roomId) [VStr sid]) "peer-joined"
           (VObj [("socketId", VStr sid); ("userInfo", UserInfo.to_value userInfo)]);
      Sent (ToRooms [VStr sid] []) (apply st' [VStr sid] []) "existing-participants"
           (VArr (map (participant st')
                      (filter (fun s => negb (String.eqb s sid))
                              (apply st' (rooms_arg roomId) []))))]).
Proof.
  intros Hparse Hroom Hemail Hcheck userInfo st'.
  destruct (prop_total _ _ _ "userName" Hroom) as [userName Hname].
  destruct (prop_total _ _ _ "userImage" Hroom) as [userImage Himage].
  subst userInfo st'. unfold joiner_info, joined_state. rewrite Hname, Himage.
  unfold on_join_room, json_parse, socket_join, fetchSockets, socket_emit.
  rewrite Hparse. unfold_run. unfold get_prop.
  rewrite Hroom, Hemail, Hname, Himage. unfold_run.
  rewrite getMeetingCreatorEmail_run. cbn beta iota.
  rewrite is_creator_run, Hcheck. cbn beta iota.
  destruct isCreator; cbn [recipients UserInfo.isModerator app]; reflexivity.
Qed.

(** A join that returned got past parsing and the creator check. *)
Lemma join_returned st sid msg :
  outcome (on_join_room JSON_parse toLowerCase db sid msg st) = Returned tt ->
  exists payload roomId userEmail isCreator,
    JSON_parse msg = Some payload /\
    Js.prop payload "roomId" = Some roomId /\
    Js.prop payload "userEmail" = Some userEmail /\
    creator_check toLowerCase (creator_email_of db roomId) userEmail = Returned isCreator.
Proof.
  unfold on_join_room, json_parse.
  destruct (JSON_parse msg) as [payload | ] eqn:Hparse; [ | discriminate].
  unfold_run. unfold get_prop.
  destruct (Js.prop payload "roomId") as [roomId | ] eqn:Hroom; [ | discriminate].
  destruct (prop_total _ _ _ "userEmail" Hroom) as [userEmail Hemail].
  rewrite Hemail. unfold_run.
  rewrite getMeetingCreatorEmail_run. cbn beta iota.
  rewrite is_creator_run.
  destruct (creator_check toLowerCase (creator_email_of db roomId) userEmail)
    as [isCreator | e] eqn:Hcheck; [ | discriminate].
  intros _. exists payload, roomId, userEmail, isCreator. auto.
Qed.


(** C9: in every join-room that completes, the socket is put in the room
    the message names before the peer-joined broadcast is sent and before
    the existing-participants list is sent; each of the three happens
    once.  The joiner is in the room when both are computed: the
    broadcast's audience and the list are read from the membership index
    as the join left it, and the broadcast carries the joiner's new
    registry record.  The list is sent on the joiner's socket, which on
    this server means to the room named by the joiner's id: to the
    joiner, who is in it, and to whoever else joined that room. *)
Theorem join_precedes_announcements (st : State) (sid msg : string) (roomId : value) :
  outcome (on_join_room JSON_parse toLowerCase db sid msg st) = Returned tt ->
  room_of JSON_parse msg = Some roomId ->
  let r := on_join_room JSON_parse toLowerCase db sid msg st in
  exists (i j k : nat),
    nth_error (trace r) i = Some (Joined sid (rooms_arg roomId)) /\
    index_of (is_joined sid) (trace r) = Some i /\
    index_of (is_sent "peer-joined") (trace r) = Some j /\
    index_of (is_sent "existing-participants") (trace r) = Some k /\
    i < j /\ i < k /\
    occurrences (is_joined sid) (trace r) = 1 /\
    occurrences (is_sent "peer-joined") (trace r) = 1 /\
    occurrences (is_sent "existing-participants") (trace r) = 1 /\
    (forall room, In room (rooms_arg roomId) -> is_member (final r) sid room = true) /\
    ((forall items, roomId <> VArr items) -> is_member (final r) sid roomId = true) /\
    (forall s room, is_member st s room = true -> is_member (final r) s room = true) /\
    (is_member st sid (VStr sid) = true -> mem sid (sockets st) = true ->
     In sid (apply (final r) [VStr sid] [])) /\
    nth_error (trace r) j =
    Some (Sent (ToRooms (rooms_arg roomId) [VStr sid])
               (apply (final r) (rooms_arg roomId) [VStr sid])
               "peer-joined"
               (VObj [("socketId", VStr sid);
                      ("userInfo",
                       opt_info (JsMap.get (socketUserInfo (final r)) (VStr sid)))])) /\
    nth_error (trace r) k =
    Some (Sent (ToRooms [VStr sid] []) (apply (final r) [VStr sid] [])
               "existing-participants"
               (VArr (map (participant (final r))
                          (filter (fun s => negb (String.eqb s sid))
                                  (apply (final r) (rooms_arg roomId) []))))).
Proof.
  intros Hret Hmsg r. subst r.
  destruct (join_returned _ _ _ Hret)
    as [payload [roomId' [userEmail [isCreator [Hparse [Hroom [Hemail Hcheck]]]]]]].
  unfold room_of in Hmsg. rewrite Hparse, Hroom in Hmsg. injection Hmsg as ->.
  rewrite (join_run _ _ _ _ _ _ _ Hparse Hroom Hemail Hcheck).
  cbn [trace final].
  set (st' := joined_state st sid roomId (joiner_info sid payload userEmail isCreator)).
  assert (Hmember : forall room, In room (rooms_arg roomId) ->
                                 is_member st' sid room = true).
  { intros room Hin. subst st'. unfold is_member, joined_state.
    cbn [memberships with_memberships]. now apply add_all_adds. }
  assert (Hone : (forall items, roomId <> VArr items) -> is_member st' sid roomId = true).
  { intros Hnot. apply Hmember. destruct roomId; try (now left).
    now contradiction (Hnot items). }
  assert (Hkept : forall s room, is_member st s room = true -> is_member st' s room = true).
  { intros s room. subst st'. unfold is_member, joined_state.
    cbn [memberships with_memberships].
    assert (Hms : memberships (with_socketUserInfo
                     (fun m => JsMap.set m (VStr sid)
                                 (joiner_info sid payload userEmail isCreator))
                     (if UserInfo.isModerator (joiner_info sid payload userEmail isCreator)
                      then with_roomModerators (fun m => JsMap.set m roomId sid) st
                      else st)) = memberships st)
      by (destruct (UserInfo.isModerator _); reflexivity).
    rewrite Hms. apply add_all_keeps. }
  assert (Hown : is_member st sid (VStr sid) = true -> mem sid (sockets st) = true ->
                 In sid (apply st' [VStr sid] [])).
  { intros Hin Hconn. apply apply_complete.
    - apply is_member_In. now apply Hkept.
    - subst st'. unfold joined_state.
      destruct (UserInfo.isModerator _); exact Hconn. }
  assert (Hrec : opt_info (JsMap.get (socketUserInfo st') (VStr sid))
                 = UserInfo.to_value (joiner_info sid payload userEmail isCreator)).
  { subst st'. unfold joined_state. cbn [socketUserInfo with_memberships with_socketUserInfo].
    now rewrite get_set_same. }
  rewrite Hrec.
  unfold creator_log. destruct (select_creator_email db roomId).
  - exists 0, 1, 2. cbn. rewrite String.eqb_refl. cbn.
    repeat split; try lia; eauto.
  - exists 1, 2, 3. cbn. rewrite String.eqb_refl. cbn.
    repeat split; try lia; eauto.
Qed.

End JoinProperties.



(** [B] joins the room [A] is in. *)
Lemma join_precedes_announcements_witness :
  let r := Scenario.join "B" Scenario.guest_joins Scenario.before_B in
  outcome r = Returned tt /\
  room_of Json.parse Scenario.guest_joins = Some Scenario.room /\
  is_member Scenario.before_B "B" Scenario.room = false /\
  is_member (final r) "B" Scenario.room = true /\
  In "B" (apply (final r) [VStr "B"] []) /\
  exists (i j k : nat),
    nth_error (trace r) i = Some (Joined "B" [Scenario.room]) /\
    index_of (is_sent "peer-joined") (trace r) = Some j /\
    index_of (is_sent "existing-participants") (trace r) = Some k /\
    i < j /\ i < k.
Proof.
  split; [reflexivity | ]. split; [reflexivity | ]. split; [reflexivity | ].
  destruct (join_precedes_announcements Json.parse Json.lower Scenario.db
              Scenario.before_B "B" Scenario.guest_joins Scenario.room eq_refl eq_refl)
    as [i [j [k [Hi [_ [Hj [Hk [Hij [Hik [_ [_ [_ [_ [Hin [_ [Hown _]]]]]]]]]]]]]]]].
  split; [ | split].
  - apply Hin. intros items H. discriminate.
  - exact (Hown eq_refl eq_refl).
  - exists i, j, k. auto.
Defined.

(** ** Malformed payloads *)

(** C4, on the code: a join-room message without an identity, for a
    room whose creator is on record, is not ignored: the handler throws
    (TypeError, from [userEmail.toLowerCase()] on [undefined]), and so
    it does (SyntaxError, from [JSON.parse]) on a text that is not
    JSON.  No listener has a [try]: the exception leaves the handler.
    The same message for a room without a recorded creator is processed
    as a join with the empty identity, which is what the handler's
    [userEmail !== ""] and [userEmail || ""] prepare for. *)
Theorem join_without_identity_throws :
  let nobody_created := Json.quoted "{'roomId':'xyz','userName':'Eve'}" in
  let accepted := Scenario.join "C" nobody_created Scenario.two_in_room in
  Json.parse Scenario.anonymous_joins
  = Some (VObj [("roomId", Scenario.room); ("userName", VStr "Eve")]) /\
  creator_email_of Scenario.db Scenario.room = Some "A@x.com" /\
  Scenario.join "C" Scenario.anonymous_joins Scenario.two_in_room
  = mkRun (Thrown TypeError) Scenario.two_in_room [] /\
  Scenario.join "B" "not json" Scenario.two_in_room
  = mkRun (Thrown SyntaxError) Scenario.two_in_room [] /\
  creator_email_of Scenario.db (VStr "xyz") = None /\
  outcome accepted = Returned tt /\
  JsMap.get (socketUserInfo (final accepted)) (VStr "C")
  = Some (UserInfo.mk "C" (VStr "Eve") (VStr EmptyString) VUndefined false).
Proof. repeat split. Qed.

(** ** Signaling *)

(** C3, as the code has it: an offer and an answer naming a target
    connection are delivered with the sender's registry record added
    under [userInfo] ([undefined] when the sender has none) and with
    every other field as received; an ICE candidate is delivered exactly
    as received, with no identity added.  All three are addressed to the
    room named by the target id and reach the target alone when that room
    holds the target and nobody else.  The relay changes no state. *)
Theorem relay_signaling (st : State) (sid : string) (payload : value) (target : string) :
  Js.prop payload "to" = Some (VStr target) ->
  members st (VStr target) = [target] ->
  mem target (sockets st) = true ->
  let sender := opt_info (JsMap.get (socketUserInfo st) (VStr sid)) in
  let augmented := Js.set_field (Js.spread payload) "userInfo" sender in
  on_offer sid payload st =
    mkRun (Returned tt) st
          [Sent (ToRooms [VStr target] []) [target] "offer" (VObj augmented)] /\
  on_answer sid payload st =
    mkRun (Returned tt) st
          [Sent (ToRooms [VStr target] []) [target] "answer" (VObj augmented)] /\
  on_ice_candidate sid payload st =
    mkRun (Returned tt) st
          [Sent (ToRooms [VStr target] []) [target] "ice-candidate" payload] /\
  Js.assoc "userInfo" augmented = Some sender /\
  (forall k, k <> "userInfo" -> Js.assoc k augmented = Js.assoc k (Js.spread payload)).
Proof.
  intros Hto Hroom Hconn sender augmented.
  pose proof (apply_own_room st target Hroom Hconn) as Happly.
  unfold on_offer, on_answer, relay_with_sender, on_ice_candidate, get_prop.
  rewrite Hto. unfold_run.
  cbn [recipients rooms_arg app]. rewrite Happly.
  repeat split.
  - apply assoc_set_field_same.
  - intros k Hk. apply assoc_set_field_other. congruence.
Qed.

(** [A] sends an offer to [B]. *)
Lemma relay_signaling_witness :
  Js.prop Scenario.candidate "to" = Some (VStr "B") /\
  members Scenario.two_in_room (VStr "B") = ["B"] /\
  mem "B" (sockets Scenario.two_in_room) = true /\
  on_offer "A" Scenario.candidate Scenario.two_in_room =
    mkRun (Returned tt) Scenario.two_in_room
      [Sent (ToRooms [VStr "B"] []) ["B"] "offer"
         (VObj (Js.set_field (Js.spread Scenario.candidate) "userInfo"
                  (opt_info (JsMap.get (socketUserInfo Scenario.two_in_room) (VStr "A")))))].
Proof.
  split; [reflexivity | ]. split; [reflexivity | ]. split; [reflexivity | ].
  apply (relay_signaling Scenario.two_in_room "A" Scenario.candidate "B");
    reflexivity.
Defined.

(** C3, against the claim as written: [A] has a registry record, yet the
    ICE candidate [A] sends to [B] arrives without any identity. *)
Lemma ice_candidate_carries_no_identity :
  let r := on_ice_candidate "A" Scenario.candidate Scenario.two_in_room in
  JsMap.has (socketUserInfo Scenario.two_in_room) (VStr "A") = true /\
  trace r = [Sent (ToRooms [VStr "B"] []) ["B"] "ice-candidate" Scenario.candidate] /\
  Js.prop Scenario.candidate "userInfo" = Some VUndefined.
Proof. repeat split. Qed.

(** ** Kick *)

(** C7: a kick-user event from a requester who is not the room's
    moderator, or aimed at the requester, is answered with one kick-error
    sent on the requester's socket; no kicked and no peer-left event is
    sent, and the registry, the membership index and the moderator
    tracker stay as they were.  On this server a reply on a socket is a
    broadcast to the room named by the socket's id: the requester, being
    connected and in that room, receives it, and so does any other socket
    that joined that room; when nobody else did, the requester alone. *)
Theorem kick_rejected (st : State) (sid : string) (payload roomId targetSocketId : value) :
  Js.prop payload "roomId" = Some roomId ->
  Js.prop payload "targetSocketId" = Some targetSocketId ->
  is_moderator st roomId sid = false \/ targetSocketId = VStr sid ->
  let r := on_kick_user sid payload st in
  let audience := apply st [VStr sid] [] in
  outcome r = Returned tt /\
  final r = st /\
  (exists message,
      trace r = [Sent (ToRooms [VStr sid] []) audience "kick-error"
                      (VObj [("message", VStr message)])]) /\
  (is_member st sid (VStr sid) = true -> mem sid (sockets st) = true -> In sid audience) /\
  (forall s, In s audience -> In s (members st (VStr sid)) /\ mem s (sockets st) = true) /\
  occurrences (is_sent "kicked") (trace r) = 0 /\
  occurrences (is_sent "peer-left") (trace r) = 0.
Proof.
  intros Hroom Htarget Hcase r audience.
  assert (Hr : exists message,
             r = mkRun (Returned tt) st
                   [Sent (ToRooms [VStr sid] []) audience "kick-error"
                         (VObj [("message", VStr message)])]).
  { subst r audience. unfold on_kick_user, get_prop. rewrite Hroom, Htarget.
    unfold kick_error, socket_emit. unfold_run. cbn [recipients].
    destruct (is_moderator st roomId sid) eqn:Hmod; cbn [negb].
    - destruct Hcase as [Hcase | ->]; [discriminate | ].
      rewrite eqb_refl. eexists. reflexivity.
    - eexists. reflexivity. }
  destruct Hr as [message ->]. cbn [outcome final trace].
  split; [reflexivity | ]. split; [reflexivity | ]. split; [eauto | ].
  split; [ | split; [ | split; reflexivity]].
  - intros Hin Hconn. apply apply_complete; [ | assumption]. now apply is_member_In.
  - intros s Hs. apply apply_sound in Hs. destruct Hs as [Hconn [r0 [[<- | []] Hm]]]. auto.
Qed.

(** The guest asks to remove the moderator, while a third connection is
    in the room named by the guest's id. *)
Lemma kick_rejected_witness :
  let payload := VObj [("roomId", Scenario.room); ("targetSocketId", VStr "A")] in
  let r := on_kick_user "B" payload Examples.overheard in
  is_moderator Examples.overheard Scenario.room "B" = false /\
  outcome r = Returned tt /\
  final r = Examples.overheard /\
  (exists message,
      trace r = [Sent (ToRooms [VStr "B"] []) ["B"; "C"] "kick-error"
                      (VObj [("message", VStr message)])]) /\
  In "B" (apply Examples.overheard [VStr "B"] []) /\
  occurrences (is_sent "kicked") (trace r) = 0 /\
  occurrences (is_sent "peer-left") (trace r) = 0.
Proof.
  split; [reflexivity | ].
  destruct (kick_rejected Examples.overheard "B"
              (VObj [("roomId", Scenario.room); ("targetSocketId", VStr "A")])
              Scenario.room (VStr "A") eq_refl eq_refl (or_introl eq_refl))
    as [Ho [Hf [Ht [Hin [_ [Hk Hp]]]]]].
  split; [exact Ho | ]. split; [exact Hf | ]. split; [exact Ht | ].
  split; [exact (Hin eq_refl eq_refl) | ]. split; assumption.
Defined.

(** ** Chat *)

(** C10: a user-message event naming a room is broadcast to that room
    with the sender excepted and is appended to the buffer, whatever the
    state: the handler consults neither the membership index nor the
    registry.  A display name that is missing (or otherwise falsy) is
    replaced by Anonymous in the broadcast and in the buffered record
    alike. *)
Theorem chat_unconditional (toISOString : Z -> string) (st : State) (sid : string)
        (msg roomId text senderName : value) (t_emit : Z) (uuid : string) (t_push : Z) :
  Js.prop msg "roomId" = Some roomId ->
  Js.prop msg "text" = Some text ->
  Js.prop msg "senderName" = Some senderName ->
  let r := on_user_message toISOString sid msg t_emit uuid t_push st in
  let shown := Js.or senderName (VStr "Anonymous") in
  let audience := apply st (rooms_arg roomId) [VStr sid] in
  outcome r = Returned tt /\
  trace r =
    [Sent (ToRooms (rooms_arg roomId) [VStr sid]) audience "chat-message"
          (VObj [("userId", VStr sid); ("senderName", shown); ("text", text);
                 ("time", VStr (toISOString t_emit))])] /\
  final r =
    with_messageBuffer
      (fun buf => buf ++ [BufferedMessage.mk uuid roomId sid shown text t_push]) st /\
  (In sid (members st (VStr sid)) -> ~ In sid audience) /\
  (Js.truthy senderName = false -> shown = VStr "Anonymous").
Proof.
  intros Hroom Htext Hname r shown audience. subst r.
  unfold on_user_message, get_prop. rewrite Hroom, Htext, Hname.
  unfold_run. cbn [recipients app].
  repeat split.
  - intros Hown. eapply apply_excludes; [ | exact Hown]. now left.
  - intros Hf. subst shown. unfold Js.or. now rewrite Hf.
Qed.

(** A connection that never joined and has no registry record chats
    without a name. *)
Lemma chat_unconditional_witness :
  let r := on_user_message Scenario.epoch "Z" (Scenario.chat "hi") 0 "id-1" 0
                           Scenario.two_in_room in
  Js.prop (Scenario.chat "hi") "senderName" = Some VUndefined /\
  is_member Scenario.two_in_room "Z" Scenario.room = false /\
  JsMap.has (socketUserInfo Scenario.two_in_room) (VStr "Z") = false /\
  outcome r = Returned tt /\
  trace r =
    [Sent (ToRooms [Scenario.room] [VStr "Z"]) ["A"; "B"] "chat-message"
          (VObj [("userId", VStr "Z"); ("senderName", VStr "Anonymous");
                 ("text", VStr "hi"); ("time", VStr (Scenario.epoch 0))])] /\
  messageBuffer (final r) =
    [BufferedMessage.mk "id-1" Scenario.room "Z" (VStr "Anonymous") (VStr "hi") 0].
Proof.
  destruct (chat_unconditional Scenario.epoch Scenario.two_in_room "Z"
              (Scenario.chat "hi") Scenario.room (VStr "hi") VUndefined 0 "id-1" 0
              eq_refl eq_refl eq_refl) as [Ho [Ht [Hf _]]].
  split; [reflexivity | ]. split; [reflexivity | ]. split; [reflexivity | ].
  split; [exact Ho | ]. split; [exact Ht | ]. rewrite Hf. reflexivity.
Defined.

(** ** Flush *)

Section FlushProperties.

Variable db : Db.

Lemma same_lookups_trans c1 c2 c3 :
  same_lookups db c1 c2 -> same_lookups db c2 c3 -> same_lookups db c1 c3.
Proof. intros H12 H23 code. now rewrite H12. Qed.

(** Caching an answer of the database changes no answer of [getMeetingId]. *)
Lemma lookup_after_set cache code id rows :
  JsMap.has cache code = false ->
  select_meeting_id db code = DbOk (id :: rows) ->
  same_lookups db (JsMap.set cache code id) cache.
Proof.
  intros Hmiss Hdb code'. unfold lookup_id, JsMap.has.
  destruct (Js.eqb code code') eqn:E.
  - apply eqb_eq in E. subst code'. rewrite get_set_same.
    unfold JsMap.has in Hmiss. destruct (JsMap.get cache code); [discriminate | ].
    now rewrite Hdb.
  - apply eqb_neq in E. now rewrite get_set_other.
Qed.

Lemma batch_of_same_lookups c1 c2 msgs :
  same_lookups db c1 c2 -> batch_of db c1 msgs = batch_of db c2 msgs.
Proof.
  intros H. unfold batch_of. apply flat_map_ext. intros msg. now rewrite H.
Qed.

Lemma dropped_of_same_lookups c1 c2 msgs :
  same_lookups db c1 c2 -> dropped_of db c1 msgs = dropped_of db c2 msgs.
Proof.
  intros H. unfold dropped_of. apply filter_ext. intros msg. now rewrite H.
Qed.

Lemma batch_of_cons cache msg msgs :
  batch_of db cache (msg :: msgs) = batch_of db cache [msg] ++ batch_of db cache msgs.
Proof. unfold batch_of. cbn. now rewrite app_nil_r. Qed.

Lemma dropped_of_cons cache msg msgs :
  dropped_of db cache (msg :: msgs) = dropped_of db cache [msg] ++ dropped_of db cache msgs.
Proof.
  unfold dropped_of. cbn.
  now destruct (usable (lookup_id db cache (BufferedMessage.meetingCode msg))).
Qed.

(** The rows of a batch are the kept messages, field by field and in order. *)
Lemma batch_fields cache msgs :
  map row_fields (batch_of db cache msgs) = map message_fields (kept_of db cache msgs).
Proof.
  induction msgs as [ | msg msgs IH]; [reflexivity | ].
  rewrite (batch_of_cons cache msg msgs), map_app, IH.
  unfold batch_of, kept_of. cbn [flat_map filter].
  destruct (usable (lookup_id db cache (BufferedMessage.meetingCode msg))); reflexivity.
Qed.

Lemma kept_all cache msgs :
  (forall msg, In msg msgs ->
     exists id, usable (lookup_id db cache (BufferedMessage.meetingCode msg)) = Some id) ->
  kept_of db cache msgs = msgs.
Proof.
  induction msgs as [ | msg msgs IH]; intros Hall; [reflexivity | ].
  unfold kept_of. cbn [filter]. destruct (Hall msg (or_introl eq_refl)) as [id ->].
  f_equal. apply IH. intros m Hin. apply Hall. now right.
Qed.

Lemma getMeetingId_run code st buf cache :
  exists cache' t,
    getMeetingId db code (patch st buf cache) =
      mkRun (Returned (lookup_id db cache code)) (patch st buf cache') t /\
    same_lookups db cache' cache /\ inserts t = [] /\ warnings t = [].
Proof.
  unfold getMeetingId, lookup_id. unfold_run. cbn [meetingIdMap patch].
  destruct (JsMap.has cache code) eqn:Hhas.
  - exists cache, []. repeat split.
  - destruct (select_meeting_id db code) as [[ | id rows] | ] eqn:Hdb.
    + exists cache, []. repeat split.
    + exists (JsMap.set cache code id), []. repeat split.
      eapply lookup_after_set; eassumption.
    + exists cache, [Console LogError "Error fetching meeting ID for code" [code]].
      repeat split.
Qed.

Lemma resolve_one_run valid msg st buf cache :
  exists cache' t,
    resolve_one db valid msg (patch st buf cache) =
      mkRun (Returned (valid ++ batch_of db cache [msg])) (patch st buf cache') t /\
    same_lookups db cache' cache /\ inserts t = [] /\
    warnings t = map (fun m => [BufferedMessage.meetingCode m]) (dropped_of db cache [msg]).
Proof.
  destruct (getMeetingId_run (BufferedMessage.meetingCode msg) st buf cache)
    as [cache' [t [Hrun [Hsame [Hins Hwarn]]]]].
  unfold resolve_one, bind. rewrite Hrun. unfold batch_of, dropped_of. cbn [flat_map filter].
  destruct (usable (lookup_id db cache (BufferedMessage.meetingCode msg))) as [id | ].
  - exists cache', (t ++ []). cbn. rewrite !app_nil_r. repeat split; assumption.
  - exists cache',
      (t ++ [Console LogWarn "Could not find meeting ID for code, dropping message."
                     [BufferedMessage.meetingCode msg]]).
    unfold_run. cbn. rewrite !app_nil_r. repeat split; try assumption.
    + rewrite inserts_app, Hins. reflexivity.
    + rewrite warnings_app, Hwarn. reflexivity.
Qed.

Lemma resolve_all_run msgs : forall valid st buf cache,
  exists cache' t,
    resolve_all db msgs valid (patch st buf cache) =
      mkRun (Returned (valid ++ batch_of db cache msgs)) (patch st buf cache') t /\
    same_lookups db cache' cache /\ inserts t = [] /\
    warnings t = map (fun m => [BufferedMessage.meetingCode m]) (dropped_of db cache msgs).
Proof.
  induction msgs as [ | msg msgs IH]; intros valid st buf cache.
  - exists cache, []. cbn. rewrite app_nil_r. repeat split.
  - destruct (resolve_one_run valid msg st buf cache)
      as [c1 [t1 [Hrun1 [Hsame1 [Hins1 Hwarn1]]]]].
    destruct (IH (valid ++ batch_of db cache [msg]) st buf c1)
      as [c2 [t2 [Hrun2 [Hsame2 [Hins2 Hwarn2]]]]].
    exists c2, (t1 ++ t2). cbn [resolve_all]. unfold bind. rewrite Hrun1, Hrun2.
    rewrite (batch_of_same_lookups c1 cache msgs Hsame1).
    rewrite (dropped_of_same_lookups c1 cache msgs Hsame1) in Hwarn2.
    rewrite (batch_of_cons cache msg msgs), (dropped_of_cons cache msg msgs), app_assoc.
    split; [reflexivity | ]. split; [ | split].
    + eapply same_lookups_trans; eassumption.
    + rewrite inserts_app, Hins1, Hins2. reflexivity.
    + rewrite warnings_app, Hwarn1, Hwarn2, map_app. reflexivity.
Qed.

Lemma write_batch_run batch st :
  exists t,
    write_batch db batch st = mkRun (Returned tt) st t /\
    inserts t = written batch /\ warnings t = [] /\
    (batch <> [] -> insert_messages db batch = DbError ->
     errors t = ["Error saving messages to database:"]).
Proof.
  unfold write_batch. destruct batch as [ | row rows].
  - exists []. repeat split. intros H. now contradiction H.
  - destruct (insert_messages db (row :: rows)) eqn:Hdb.
    + exists [DbInsert (row :: rows)]. repeat split. intros _ H. discriminate.
    + exists [DbInsert (row :: rows);
              Console LogError "Error saving messages to database:" []].
      repeat split.
Qed.

(** What a flush does, whatever the database answers. *)
Lemma flush_run st :
  let msgs := messageBuffer st in
  let batch := batch_of db (meetingIdMap st) msgs in
  exists cache' t,
    flushMessages db st = mkRun (Returned tt) (patch st [] cache') t /\
    same_lookups db cache' (meetingIdMap st) /\
    inserts t = written batch /\
    warnings t = map (fun m => [BufferedMessage.meetingCode m])
                     (dropped_of db (meetingIdMap st) msgs) /\
    (batch <> [] -> insert_messages db batch = DbError ->
     In "Error saving messages to database:" (errors t)).
Proof.
  cbv zeta. unfold flushMessages. unfold bind at 1, read.
  destruct (messageBuffer st) as [ | msg rest] eqn:Hbuf.
  - assert (Hst : patch st [] (meetingIdMap st) = st)
      by (rewrite <- Hbuf; apply patch_same).
    exists (meetingIdMap st), []. rewrite Hst. cbn. repeat split.
    intros H. now contradiction H.
  - unfold take_buffer. unfold_run. rewrite Hbuf.
    change (with_messageBuffer (fun _ => []) st) with (patch st [] (meetingIdMap st)).
    destruct (resolve_all_run (msg :: rest) [] st [] (meetingIdMap st))
      as [cache' [t [Hrun [Hsame [Hins Hwarn]]]]].
    rewrite Hrun.
    destruct (write_batch_run ([] ++ batch_of db (meetingIdMap st) (msg :: rest))
                              (patch st [] cache'))
      as [t' [Hrun' [Hins' [Hwarn' Herr']]]].
    rewrite Hrun'. exists cache', (t ++ t'). cbn [app] in *.
    split; [reflexivity | ]. split; [assumption | ]. split; [ | split].
    + rewrite inserts_app, Hins, Hins'. reflexivity.
    + rewrite warnings_app, Hwarn, Hwarn', app_nil_r. reflexivity.
    + intros Hne Hfail. rewrite errors_app, (Herr' Hne Hfail).
      apply in_or_app. right. now left.
Qed.

(** C5: when the room code of every buffered message resolves to a usable
    durable id, a flush hands all of them to the database in one insert:
    the rows are the messages in order, each once, with the same id,
    sender, sender name, content and time.  With N >= 1 messages there
    is exactly that one insert; with an empty buffer there is nothing to
    write and none is issued.  The buffer is empty afterwards. *)
Theorem flush_round_trip (st : State) :
  (forall msg, In msg (messageBuffer st) ->
     exists id,
       usable (lookup_id db (meetingIdMap st) (BufferedMessage.meetingCode msg)) = Some id) ->
  let r := flushMessages db st in
  exists rows,
    outcome r = Returned tt /\
    (messageBuffer st <> [] -> inserts (trace r) = [rows]) /\
    (messageBuffer st = [] -> inserts (trace r) = []) /\
    map row_fields rows = map message_fields (messageBuffer st) /\
    messageBuffer (final r) = [].
Proof.
  intros Hall r. subst r.
  destruct (flush_run st) as [cache' [t [Hrun [_ [Hins _]]]]].
  exists (batch_of db (meetingIdMap st) (messageBuffer st)).
  pose proof (batch_fields (meetingIdMap st) (messageBuffer st)) as Hfields.
  rewrite (kept_all _ _ Hall) in Hfields.
  rewrite Hrun. cbn [outcome final trace patch messageBuffer].
  rewrite Hins. repeat split; try assumption.
  - intros Hne. unfold written.
    destruct (batch_of db (meetingIdMap st) (messageBuffer st)); [ | reflexivity].
    destruct (messageBuffer st); [now contradiction Hne | discriminate].
  - intros ->. reflexivity.
Qed.


Section Concurrent.

Variable toISOString : Z -> string.

Lemma chat_run sid msg t_emit uuid t_push st buf cache :
  enqueues (Chat sid msg t_emit uuid t_push) ->
  exists t,
    on_user_message toISOString sid msg t_emit uuid t_push (patch st buf cache) =
      mkRun (Returned tt)
            (patch st (buf ++ enqueued_by (Chat sid msg t_emit uuid t_push)) cache) t /\
    inserts t = [].
Proof.
  unfold enqueues, on_user_message, enqueued_by, get_prop. intros Hread.
  destruct (Js.prop msg "roomId") as [roomId | ] eqn:Hroom; [ | now contradiction Hread].
  destruct (prop_total _ _ _ "text" Hroom) as [text Htext].
  destruct (prop_total _ _ _ "senderName" Hroom) as [senderName Hname].
  rewrite Htext, Hname. unfold_run. cbn. eexists. split; reflexivity.
Qed.

(** While a flush is in flight the buffer only grows by what the chat
    handler appends, and the rows the flush ends up with are those of the
    list it took. *)
Lemma interleave_run sched : forall fl st buf cache,
  Forall enqueues sched ->
  exists fl' cache' t,
    interleave toISOString db sched fl (patch st buf cache) =
      mkRun (Returned fl') (patch st (buf ++ enqueued sched) cache') t /\
    same_lookups db cache' cache /\
    inserts t = [] /\
    validMessages fl' ++ batch_of db cache (todo fl') =
    validMessages fl ++ batch_of db cache (todo fl).
Proof.
  induction sched as [ | step sched IH]; intros fl st buf cache Hsched.
  - exists fl, cache, []. cbn. rewrite app_nil_r. repeat split.
  - apply Forall_cons_iff in Hsched. destruct Hsched as [Hstep Hsched].
    destruct step as [ | sid msg t_emit uuid t_push]; cbn [interleave].
    + destruct fl as [pending valid]. cbn [todo validMessages].
      destruct pending as [ | msg rest].
      * destruct (IH (mkFlush [] valid) st buf cache Hsched)
          as [fl' [c' [t [Hrun [Hs [Hi Hb]]]]]].
        exists fl', c', t. repeat split; assumption.
      * destruct (resolve_one_run valid msg st buf cache)
          as [c1 [t1 [Hrun1 [Hsame1 [Hins1 _]]]]].
        destruct (IH (mkFlush rest (valid ++ batch_of db cache [msg])) st buf c1 Hsched)
          as [fl' [c2 [t2 [Hrun2 [Hsame2 [Hins2 Hb]]]]]].
        exists fl', c2, (t1 ++ t2). unfold bind. rewrite Hrun1, Hrun2.
        cbn [todo validMessages] in Hb.
        rewrite (batch_of_same_lookups c1 cache) in Hb by assumption.
        rewrite (batch_of_same_lookups c1 cache) in Hb by assumption.
        split; [reflexivity | ]. split; [ | split].
        -- eapply same_lookups_trans; eassumption.
        -- rewrite inserts_app, Hins1, Hins2. reflexivity.
        -- rewrite Hb, (batch_of_cons cache msg rest), app_assoc. reflexivity.
    + destruct (chat_run sid msg t_emit uuid t_push st buf cache Hstep)
        as [t1 [Hrun1 Hins1]].
      destruct (IH fl st (buf ++ enqueued_by (Chat sid msg t_emit uuid t_push)) cache Hsched)
        as [fl' [c2 [t2 [Hrun2 [Hsame2 [Hins2 Hb]]]]]].
      exists fl', c2, (t1 ++ t2). unfold bind. rewrite Hrun1, Hrun2.
      unfold enqueued. cbn [flat_map]. rewrite app_assoc.
      split; [reflexivity | ]. split; [assumption | ]. split; [ | assumption].
      rewrite inserts_app, Hins1, Hins2. reflexivity.
Qed.

Lemma chats_only_run sched : forall st buf cache,
  Forall enqueues sched ->
  exists t,
    chats_only toISOString sched (patch st buf cache) =
      mkRun (Returned tt) (patch st (buf ++ enqueued sched) cache) t /\
    inserts t = [].
Proof.
  induction sched as [ | step sched IH]; intros st buf cache Hsched.
  - exists []. cbn. rewrite app_nil_r. split; reflexivity.
  - apply Forall_cons_iff in Hsched. destruct Hsched as [Hstep Hsched].
    unfold chats_only. cbn [for_each]. fold (chats_only toISOString sched).
    destruct step as [ | sid msg t_emit uuid t_push].
    + destruct (IH st buf cache Hsched) as [t [Hrun Hins]].
      exists t. unfold bind, ret. rewrite Hrun. split; [reflexivity | assumption].
    + destruct (chat_run sid msg t_emit uuid t_push st buf cache Hstep)
        as [t1 [Hrun1 Hins1]].
      destruct (IH st (buf ++ enqueued_by (Chat sid msg t_emit uuid t_push)) cache Hsched)
        as [t2 [Hrun2 Hins2]].
      exists (t1 ++ t2). unfold bind. rewrite Hrun1, Hrun2.
      unfold enqueued. cbn [flat_map]. rewrite app_assoc.
      split; [reflexivity | ]. rewrite inserts_app, Hins1, Hins2. reflexivity.
Qed.

Lemma concurrent_flush_run sched st :
  Forall enqueues sched ->
  exists cache' t,
    concurrent_flush toISOString db sched st =
      mkRun (Returned tt) (patch st (enqueued sched) cache') t /\
    same_lookups db cache' (meetingIdMap st) /\
    inserts t = written (batch_of db (meetingIdMap st) (messageBuffer st)).
Proof.
  intros Hsched. unfold concurrent_flush. unfold bind at 1, read.
  destruct (messageBuffer st) as [ | msg rest] eqn:Hbuf.
  - destruct (chats_only_run sched st [] (meetingIdMap st) Hsched) as [t [Hrun Hins]].
    assert (Hst : patch st [] (meetingIdMap st) = st)
      by (rewrite <- Hbuf; apply patch_same).
    rewrite Hst in Hrun. rewrite Hrun.
    exists (meetingIdMap st), t. cbn. repeat split. assumption.
  - unfold take_buffer. unfold_run. rewrite Hbuf.
    change (with_messageBuffer (fun _ => []) st) with (patch st [] (meetingIdMap st)).
    destruct (interleave_run sched (mkFlush (msg :: rest) []) st [] (meetingIdMap st)
                             Hsched)
      as [fl' [c1 [t1 [Hrun1 [Hsame1 [Hins1 Hb]]]]]].
    rewrite Hrun1.
    destruct (resolve_all_run (todo fl') (validMessages fl') st ([] ++ enqueued sched) c1)
      as [c2 [t2 [Hrun2 [Hsame2 [Hins2 _]]]]].
    rewrite Hrun2.
    rewrite (batch_of_same_lookups c1 (meetingIdMap st)) by assumption.
    rewrite Hb. cbn [todo validMessages app].
    destruct (write_batch_run (batch_of db (meetingIdMap st) (msg :: rest))
                              (patch st (enqueued sched) c2))
      as [t3 [Hrun3 [Hins3 _]]].
    rewrite Hrun3. exists c2, (t1 ++ t2 ++ t3).
    split; [reflexivity | ]. split.
    + eapply same_lookups_trans; eassumption.
    + rewrite !inserts_app, Hins1, Hins2, Hins3. reflexivity.
Qed.


End Concurrent.

End FlushProperties.

(** Two messages wait, both for the room the database knows. *)
Lemma flush_round_trip_witness :
  let r := flushMessages Scenario.db Scenario.chatting in
  List.length (messageBuffer Scenario.chatting) = 2 /\
  exists rows,
    outcome r = Returned tt /\
    inserts (trace r) = [rows] /\
    map row_fields rows = map message_fields (messageBuffer Scenario.chatting) /\
    messageBuffer (final r) = [].
Proof.
  split; [reflexivity | ].
  destruct (flush_round_trip Scenario.db Scenario.chatting) as [rows [Ho [Hone [_ [Hf Hb]]]]].
  - intros msg Hin. cbn in Hin.
    destruct Hin as [<- | [<- | []]]; eexists; reflexivity.
  - exists rows. split; [exact Ho | ]. split; [ | split; assumption].
    apply Hone. discriminate.
Defined.


(** * Further properties *)

(** ** What a handler leaves alone *)

Section Frame.

Variable q : State -> State -> Prop.
Hypothesis q_refl : forall st, q st st.
Hypothesis q_trans : forall a b c, q a b -> q b c -> q a c.

Lemma keeps_ret {A} (a : A) : keeps q (ret a).
Proof. intros st. apply q_refl. Qed.

Lemma keeps_throw {A} e : keeps q (@throw A e).
Proof. intros st. apply q_refl. Qed.

Lemma keeps_read : keeps q read.
Proof. intros st. apply q_refl. Qed.

Lemma keeps_effect e : keeps q (effect e).
Proof. intros st. apply q_refl. Qed.

Lemma keeps_modify f : (forall st, q st (f st)) -> keeps q (modify f).
Proof. intros H st. apply H. Qed.

Lemma keeps_bind {A B} (c : M A) (k : A -> M B) :
  keeps q c -> (forall a, keeps q (k a)) -> keeps q (bind c k).
Proof.
  intros Hc Hk st. unfold bind. specialize (Hc st).
  destruct (c st) as [[a | e] st' t]; cbn in *; [ | exact Hc].
  specialize (Hk a st'). destruct (k a st') as [o st'' t']. cbn in *.
  eapply q_trans; eassumption.
Qed.

Lemma keeps_when b c : keeps q c -> keeps q (when b c).
Proof. intros H. destruct b; [exact H | apply keeps_ret]. Qed.

Lemma keeps_for_each {A} (l : list A) body :
  (forall x, keeps q (body x)) -> keeps q (for_each l body).
Proof.
  intros H. induction l as [ | x l IH]; cbn [for_each].
  - apply keeps_ret.
  - apply keeps_bind; [apply H | intros _; exact IH].
Qed.

Lemma keeps_get_prop v k : keeps q (get_prop v k).
Proof. unfold get_prop. destruct (Js.prop v k); [apply keeps_ret | apply keeps_throw]. Qed.

Lemma keeps_emit a ev p : keeps q (emit a ev p).
Proof. unfold emit. apply keeps_bind; [apply keeps_read | intros; apply keeps_effect]. Qed.

Lemma keeps_socket_emit sid ev p : keeps q (socket_emit sid ev p).
Proof. apply keeps_emit. Qed.

Lemma keeps_emit_closing sid a ev p : keeps q (emit_closing sid a ev p).
Proof.
  unfold emit_closing. apply keeps_bind; [apply keeps_read | intros; apply keeps_effect].
Qed.

End Frame.

Ltac keeps_step R T :=
  lazymatch goal with
  | |- keeps _ (ret _) => apply (keeps_ret _ R)
  | |- keeps _ (throw _) => apply (keeps_throw _ R)
  | |- keeps _ read => apply (keeps_read _ R)
  | |- keeps _ (effect _) => apply (keeps_effect _ R)
  | |- keeps _ (emit _ _ _) => apply (keeps_emit _ R T)
  | |- keeps _ (socket_emit _ _ _) => apply (keeps_socket_emit _ R T)
  | |- keeps _ (emit_closing _ _ _ _) => apply (keeps_emit_closing _ R T)
  | |- keeps _ (get_prop _ _) => apply (keeps_get_prop _ R)
  | |- keeps _ (bind _ _) => apply (keeps_bind _ T); [ | intros ]
  | |- keeps _ (when _ _) => apply (keeps_when _ R)
  | |- keeps _ (for_each _ _) => apply (keeps_for_each _ R T); intros
  | |- keeps _ (modify _) => apply keeps_modify; intros
  | |- keeps _ (match ?x with _ => _ end) => destruct x
  end.

Ltac keeps_auto R T := repeat keeps_step R T.


Lemma same_store_refl st : same_store st st.
Proof. split; reflexivity. Qed.

Lemma same_store_trans a b c : same_store a b -> same_store b c -> same_store a c.
Proof. intros [H1 H2] [H3 H4]. split; congruence. Qed.

Lemma same_rooms_refl st : same_rooms st st.
Proof. repeat split. Qed.

Lemma same_rooms_trans a b c : same_rooms a b -> same_rooms b c -> same_rooms a c.
Proof.
  intros [H1 [H2 [H3 H4]]] [H5 [H6 [H7 H8]]]. repeat split; congruence.
Qed.

Ltac store_frame :=
  keeps_auto same_store_refl same_store_trans; split; reflexivity.

Ltac rooms_frame :=
  keeps_auto same_rooms_refl same_rooms_trans; repeat split.

Section FrameProperties.

Variable JSON_parse : string -> option value.
Variable toLowerCase : string -> string.
Variable toISOString : Z -> string.
Variable db : Db.

Lemma join_keeps_store sid msg :
  keeps same_store (on_join_room JSON_parse toLowerCase db sid msg).
Proof.
  unfold on_join_room, json_parse, getMeetingCreatorEmail, is_creator, call_toLowerCase,
    socket_join, fetchSockets.
  store_frame.
Qed.

Lemma relay_keeps_store event sid payload :
  keeps same_store (relay_with_sender event sid payload).
Proof. unfold relay_with_sender. store_frame. Qed.

Lemma kick_keeps_store sid payload : keeps same_store (on_kick_user sid payload).
Proof. unfold on_kick_user, kick_error, socket_leave. store_frame. Qed.

Lemma leave_rooms_keeps_store sid userInfo rooms : forall cleaned,
  keeps same_store (leave_rooms sid userInfo rooms cleaned).
Proof.
  induction rooms as [ | roomId rooms IH]; intros cleaned; cbn [leave_rooms].
  - store_frame.
  - apply (keeps_bind _ same_store_trans); [store_frame | intros st'].
    apply (keeps_bind _ same_store_trans);
      [unfold failover, fetchSockets, suspend, transport_close; store_frame | intros _].
    apply (keeps_bind _ same_store_trans); [store_frame | intros _; apply IH].
Qed.

Lemma disconnecting_keeps_store sid : keeps same_store (on_disconnecting sid).
Proof.
  unfold on_disconnecting.
  apply (keeps_bind _ same_store_trans); [store_frame | intros st].
  apply (keeps_bind _ same_store_trans); [apply leave_rooms_keeps_store | intros cleaned].
  store_frame.
Qed.

Lemma room_and_signal_events_frame (ev : Event) (st : State) :
  store_event ev = false ->
  same_store st (final (handle JSON_parse toLowerCase toISOString db ev st)).
Proof.
  intros Hev. revert st. change (keeps same_store (handle JSON_parse toLowerCase toISOString db ev)).
  destruct ev; try discriminate; cbn [handle].
  - unfold transport_connect. store_frame.
  - apply join_keeps_store.
  - apply relay_keeps_store.
  - apply relay_keeps_store.
  - unfold on_ice_candidate. store_frame.
  - apply kick_keeps_store.
  - apply (keeps_bind _ same_store_trans); [apply disconnecting_keeps_store | intros cleaned].
    unfold transport_close. store_frame.
Qed.

Lemma getMeetingId_keeps_rooms code : keeps same_rooms (getMeetingId db code).
Proof. unfold getMeetingId. rooms_frame. Qed.

Lemma resolve_all_keeps_rooms msgs : forall valid,
  keeps same_rooms (resolve_all db msgs valid).
Proof.
  induction msgs as [ | msg msgs IH]; intros valid; cbn [resolve_all].
  - rooms_frame.
  - apply (keeps_bind _ same_rooms_trans); [ | intros; apply IH].
    unfold resolve_one.
    apply (keeps_bind _ same_rooms_trans); [apply getMeetingId_keeps_rooms | intros].
    rooms_frame.
Qed.

Lemma flush_keeps_rooms : keeps same_rooms (flushMessages db).
Proof.
  unfold flushMessages.
  apply (keeps_bind _ same_rooms_trans); [rooms_frame | intros st0].
  destruct (messageBuffer st0); [rooms_frame | ].
  apply (keeps_bind _ same_rooms_trans); [unfold take_buffer; rooms_frame | intros].
  apply (keeps_bind _ same_rooms_trans); [apply resolve_all_keeps_rooms | intros].
  unfold write_batch. rooms_frame.
Qed.

Lemma chat_and_signal_events_frame (ev : Event) (st : State) :
  room_event ev = false ->
  same_rooms st (final (handle JSON_parse toLowerCase toISOString db ev st)).
Proof.
  intros Hev. revert st. change (keeps same_rooms (handle JSON_parse toLowerCase toISOString db ev)).
  destruct ev; try discriminate; cbn [handle].
  - unfold on_user_message. rooms_frame.
  - unfold on_offer, relay_with_sender. rooms_frame.
  - unfold on_answer, relay_with_sender. rooms_frame.
  - unfold on_ice_candidate. rooms_frame.
  - apply flush_keeps_rooms.
Qed.

(** X1: connection, join, signaling, kick and disconnect events never
    touch the chat buffer or the id cache, whatever their payload and
    whether or not the handler throws. *)
Theorem room_and_signal_events_keep_store (ev : Event) (st : State) :
  store_event ev = false ->
  same_store st (final (handle JSON_parse toLowerCase toISOString db ev st)).
Proof. apply room_and_signal_events_frame. Qed.

(** X2: chat, signaling and flush events never touch the moderator
    tracker, the registry, the membership index or the set of
    connections. *)
Theorem chat_and_signal_events_keep_rooms (ev : Event) (st : State) :
  room_event ev = false ->
  same_rooms st (final (handle JSON_parse toLowerCase toISOString db ev st)).
Proof. apply chat_and_signal_events_frame. Qed.

End FrameProperties.

(** ** The id cache *)

Section CacheProperties.

Variable JSON_parse : string -> option value.
Variable toLowerCase : string -> string.
Variable toISOString : Z -> string.
Variable db : Db.

Lemma keeps_sound_refl st : keeps_sound db st st.
Proof. intros H. exact H. Qed.

Lemma keeps_sound_trans a b c :
  keeps_sound db a b -> keeps_sound db b c -> keeps_sound db a c.
Proof. intros H1 H2 H. auto. Qed.

Lemma same_store_sound st st' : same_store st st' -> keeps_sound db st st'.
Proof. intros [Hc _] H. now rewrite Hc. Qed.

Lemma cache_sound_set cache code id rows :
  cache_sound db cache ->
  select_meeting_id db code = DbOk (id :: rows) ->
  cache_sound db (JsMap.set cache code id).
Proof.
  intros Hs Hdb code' id' Hget.
  destruct (Js.eqb code code') eqn:E.
  - apply eqb_eq in E. subst code'. rewrite get_set_same in Hget.
    injection Hget as <-. eauto.
  - apply eqb_neq in E. rewrite get_set_other in Hget by assumption. eauto.
Qed.

Lemma getMeetingId_keeps_sound code : keeps (keeps_sound db) (getMeetingId db code).
Proof.
  intros st Hs. unfold getMeetingId. unfold_run.
  destruct (JsMap.has (meetingIdMap st) code); [exact Hs | ].
  destruct (select_meeting_id db code) as [[ | id rows] | ] eqn:Hdb; cbn; try exact Hs.
  eapply cache_sound_set; eassumption.
Qed.

Lemma resolve_all_keeps_sound msgs : forall valid,
  keeps (keeps_sound db) (resolve_all db msgs valid).
Proof.
  induction msgs as [ | msg msgs IH]; intros valid; cbn [resolve_all].
  - apply (keeps_ret _ keeps_sound_refl).
  - apply (keeps_bind _ keeps_sound_trans); [ | intros; apply IH].
    unfold resolve_one.
    apply (keeps_bind _ keeps_sound_trans); [apply getMeetingId_keeps_sound | intros].
    keeps_auto keeps_sound_refl keeps_sound_trans.
Qed.

Lemma flush_keeps_sound : keeps (keeps_sound db) (flushMessages db).
Proof.
  unfold flushMessages.
  apply (keeps_bind _ keeps_sound_trans); [apply (keeps_read _ keeps_sound_refl) | intros st0].
  destruct (messageBuffer st0); [apply (keeps_ret _ keeps_sound_refl) | ].
  apply (keeps_bind _ keeps_sound_trans).
  - unfold take_buffer. keeps_auto keeps_sound_refl keeps_sound_trans.
    intros H. exact H.
  - intros. apply (keeps_bind _ keeps_sound_trans); [apply resolve_all_keeps_sound | intros].
    unfold write_batch. keeps_auto keeps_sound_refl keeps_sound_trans.
Qed.

Lemma handle_keeps_sound ev :
  keeps (keeps_sound db) (handle JSON_parse toLowerCase toISOString db ev).
Proof.
  destruct (store_event ev) eqn:Hev.
  - destruct ev; try discriminate; cbn [handle].
    + unfold on_user_message. keeps_auto keeps_sound_refl keeps_sound_trans.
      intros H. exact H.
    + apply flush_keeps_sound.
  - intros st. apply same_store_sound.
    now apply room_and_signal_events_frame.
Qed.

Lemma run_keeps_sound evs : forall st,
  cache_sound db (meetingIdMap st) ->
  cache_sound db (meetingIdMap (run JSON_parse toLowerCase toISOString db evs st)).
Proof.
  induction evs as [ | ev evs IH]; intros st Hs; cbn [run]; [exact Hs | ].
  apply IH. now apply handle_keeps_sound.
Qed.

(** X3: whatever events arrive, in whatever order, every id in the
    code-to-id cache is one the database returned for that very code. *)
Theorem cache_stays_sound (evs : list Event) :
  cache_sound db (meetingIdMap (run JSON_parse toLowerCase toISOString db evs initial)).
Proof.
  apply run_keeps_sound. intros code id H. discriminate.
Qed.

(** A cached code is answered from the cache alone. *)
Lemma cached_id_is_reused (any : Db) (st : State) (code : value) (id : string) :
  JsMap.get (meetingIdMap st) code = Some id ->
  getMeetingId any code st = mkRun (Returned (Some id)) st [].
Proof.
  intros Hget. unfold getMeetingId, JsMap.has. unfold_run. now rewrite Hget.
Qed.

(** X4: a code the database resolves is cached by the first lookup, and
    every later lookup gives the same id, also when the database fails
    or no longer knows the code. *)
Theorem resolved_id_is_cached (later : Db) (st : State) (code : value)
        (id : string) (rows : list string) :
  JsMap.has (meetingIdMap st) code = false ->
  select_meeting_id db code = DbOk (id :: rows) ->
  let r := getMeetingId db code st in
  outcome r = Returned (Some id) /\
  trace r = [] /\
  JsMap.get (meetingIdMap (final r)) code = Some id /\
  getMeetingId later code (final r) = mkRun (Returned (Some id)) (final r) [].
Proof.
  intros Hmiss Hdb.
  assert (Hr : getMeetingId db code st =
               mkRun (Returned (Some id))
                     (with_meetingIdMap (fun m => JsMap.set m code id) st) []).
  { unfold getMeetingId. unfold_run. now rewrite Hmiss, Hdb. }
  cbv zeta. rewrite Hr. cbn [outcome final trace].
  assert (Hget : JsMap.get (meetingIdMap (with_meetingIdMap
                   (fun m => JsMap.set m code id) st)) code = Some id)
    by apply get_set_same.
  repeat split; try assumption.
  unfold getMeetingId, JsMap.has. unfold_run. now rewrite Hget.
Qed.


End CacheProperties.

(** ** Kick, the rest *)

(** The run of a kick the handler lets through. *)
Lemma kick_run st sid payload roomId target :
  Js.prop payload "roomId" = Some roomId ->
  Js.prop payload "targetSocketId" = Some (VStr target) ->
  is_moderator st roomId sid = true ->
  target <> sid ->
  mem target (sockets st) = true ->
  let left := with_memberships
                (filter (fun p => negb (String.eqb (fst p) target && Js.eqb (snd p) roomId)))
                st in
  on_kick_user sid payload st =
  mkRun (Returned tt)
    (with_socketUserInfo (fun m => JsMap.delete m (VStr target)) left)
    [Sent (ToRooms [VStr target] []) (apply st [VStr target] []) "kicked"
          (VObj [("message",
                  VStr "You have been removed from the meeting by the moderator");
                 ("kickedBy",
                  Js.or (match JsMap.get (socketUserInfo st) (VStr sid) with
                         | Some info => UserInfo.name info
                         | None => VUndefined
                         end) (VStr "Moderator"))]);
     Left target roomId;
     Sent (ToRooms (rooms_arg roomId) []) (apply left (rooms_arg roomId) []) "peer-left"
          (VObj [("socketId", VStr target); ("reason", VStr "kicked");
                 ("userInfo", opt_info (JsMap.get (socketUserInfo st) (VStr target)))])].
Proof.
  intros Hroom Htarget Hmod Hne Hconn left. subst left.
  unfold on_kick_user, get_prop. rewrite Hroom, Htarget. unfold_run.
  rewrite Hmod. cbn [negb].
  assert (Hself : Js.eqb (VStr target) (VStr sid) = false).
  { apply eqb_neq. congruence. }
  rewrite Hself. cbn [find_socket]. rewrite Hconn.
  unfold socket_leave, socket_emit. unfold_run. cbn [recipients app]. reflexivity.
Qed.

(** X6: a kick by the room's moderator of another, connected socket.
    The handler sends kicked on the target's socket, which on this
    server is a broadcast to the room named by the target's id: the
    target gets it (being in that room), and so does whoever else
    joined that room.  It then takes the target out of the room, and of
    no other, tells the room as it then is that the peer left, with the
    target's registry record, and deletes that record.  No kick-error
    is sent; the moderator tracker and the connections are not
    touched.  The handler does not ask whether the target was in the
    room. *)
Theorem kick_removes_target (st : State) (sid : string) (payload roomId : value)
        (target : string) :
  Js.prop payload "roomId" = Some roomId ->
  Js.prop payload "targetSocketId" = Some (VStr target) ->
  is_moderator st roomId sid = true ->
  target <> sid ->
  mem target (sockets st) = true ->
  let r := on_kick_user sid payload st in
  let told := apply st [VStr target] [] in
  outcome r = Returned tt /\
  (exists notice,
      trace r =
      [Sent (ToRooms [VStr target] []) told "kicked" notice;
       Left target roomId;
       Sent (ToRooms (rooms_arg roomId) []) (apply (final r) (rooms_arg roomId) [])
            "peer-left"
            (VObj [("socketId", VStr target); ("reason", VStr "kicked");
                   ("userInfo",
                    opt_info (JsMap.get (socketUserInfo st) (VStr target)))])]) /\
  (is_member st target (VStr target) = true -> In target told) /\
  (forall s, In s told -> In s (members st (VStr target)) /\ mem s (sockets st) = true) /\
  is_member (final r) target roomId = false /\
  (forall s room, s <> target \/ room <> roomId ->
     is_member (final r) s room = is_member st s room) /\
  roomModerators (final r) = roomModerators st /\
  socketUserInfo (final r) = JsMap.delete (socketUserInfo st) (VStr target) /\
  sockets (final r) = sockets st.
Proof.
  intros Hroom Htarget Hmod Hne Hconn r told. subst r told.
  rewrite (kick_run _ _ _ _ _ Hroom Htarget Hmod Hne Hconn).
  cbn [outcome final trace]. split; [reflexivity | ].
  split; [eexists; reflexivity | ].
  split; [ | split; [ | split; [ | split; [ | split; [ | split]]]]]; try reflexivity.
  - intros Hin. apply apply_complete; [now apply is_member_In | assumption].
  - intros s Hs. apply apply_sound in Hs. destruct Hs as [Hc [r0 [[<- | []] Hm]]]. auto.
  - unfold is_member. cbn [memberships with_socketUserInfo with_memberships].
    apply (existsb_filter_same
             (fun p => String.eqb (fst p) target && Js.eqb (snd p) roomId)).
  - intros s room Hother. unfold is_member.
    cbn [memberships with_socketUserInfo with_memberships].
    apply existsb_filter_other. intros p Hp.
    apply andb_true_iff in Hp. destruct Hp as [Hs Hr].
    apply String.eqb_eq in Hs. apply eqb_eq in Hr.
    apply negb_true_iff. apply andb_false_iff.
    destruct Hother as [Hs' | Hr'].
    + left. apply String.eqb_neq. congruence.
    + right. apply eqb_neq. congruence.
Qed.

(** X7: a kick by the moderator aimed at an id that is not a connected
    socket does nothing at all: no state change, no event, and no
    kick-error either. *)
Theorem kick_of_absent_target_is_silent (st : State) (sid : string)
        (payload roomId targetSocketId : value) :
  Js.prop payload "roomId" = Some roomId ->
  Js.prop payload "targetSocketId" = Some targetSocketId ->
  is_moderator st roomId sid = true ->
  targetSocketId <> VStr sid ->
  find_socket st targetSocketId = None ->
  on_kick_user sid payload st = mkRun (Returned tt) st [].
Proof.
  intros Hroom Htarget Hmod Hne Hgone.
  unfold on_kick_user, get_prop. rewrite Hroom, Htarget. unfold_run.
  rewrite Hmod. cbn [negb]. apply eqb_neq in Hne. rewrite Hne, Hgone. reflexivity.
Qed.

Lemma members_In st r m :
  In m (members st r) <-> exists p, In p (memberships st) /\ fst p = m /\ snd p = r.
Proof.
  unfold members. rewrite in_map_iff. split.
  - intros [p [Hm Hin]]. apply filter_In in Hin. destruct Hin as [Hin Hr].
    apply eqb_eq in Hr. eauto.
  - intros [p [Hin [Hm Hr]]]. exists p. split; [assumption | ].
    apply filter_In. split; [assumption | ]. subst r. apply eqb_refl.
Qed.

Lemma is_moderator_get st roomId sid :
  is_moderator st roomId sid = true <-> JsMap.get (roomModerators st) roomId = Some sid.
Proof.
  unfold is_moderator. destruct (JsMap.get (roomModerators st) roomId) as [m | ].
  - rewrite String.eqb_eq. split; congruence.
  - split; discriminate.
Qed.

(** What a kick can do to the state. *)
Lemma kick_final st sid payload :
  final (on_kick_user sid payload st) = st \/
  exists roomId target,
    is_moderator st roomId sid = true /\ target <> sid /\
    final (on_kick_user sid payload st) =
    with_socketUserInfo (fun m => JsMap.delete m (VStr target))
      (with_memberships
         (filter (fun p => negb (String.eqb (fst p) target && Js.eqb (snd p) roomId))) st).
Proof.
  unfold on_kick_user, get_prop.
  destruct (Js.prop payload "roomId") as [roomId | ] eqn:Hroom; [ | now left].
  destruct (prop_total _ _ _ "targetSocketId" Hroom) as [targetSocketId Htarget].
  rewrite Htarget. unfold_run.
  destruct (is_moderator st roomId sid) eqn:Hmod; cbn [negb]; [ | now left].
  destruct (Js.eqb targetSocketId (VStr sid)) eqn:Hself; [now left | ].
  destruct (find_socket st targetSocketId) as [target | ] eqn:Hfind; [ | now left].
  right. exists roomId, target.
  unfold find_socket in Hfind. destruct targetSocketId; try discriminate.
  destruct (mem s (sockets st)); [ | discriminate]. injection Hfind as ->.
  apply eqb_neq in Hself. split; [exact Hmod | ]. split; [congruence | ].
  unfold socket_leave. unfold_run. reflexivity.
Qed.

Lemma kick_inv (st : State) (sid : string) (payload : value) :
  moderators_are_members st ->
  moderators_are_members (final (on_kick_user sid payload st)).
Proof.
  intros Hinv.
  destruct (kick_final st sid payload) as [-> | [roomId [target [Hmod [Hne ->]]]]];
    [exact Hinv | ].
  intros r m Hget. cbn [roomModerators with_socketUserInfo with_memberships] in Hget.
  specialize (Hinv r m Hget). apply members_In in Hinv.
  destruct Hinv as [p [Hin [Hm Hr]]]. apply members_In. exists p.
  split; [ | auto].
  cbn [memberships with_socketUserInfo with_memberships]. apply filter_In.
  split; [assumption | ]. apply negb_true_iff. apply andb_false_iff.
  destruct (Js.eqb (snd p) roomId) eqn:E; [left | now right].
  apply eqb_eq in E. apply String.eqb_neq. intros Ht.
  apply is_moderator_get in Hmod. rewrite <- E, Hr in Hmod. congruence.
Qed.

(** X8: no kick-user event, whatever its payload, makes a recorded
    moderator a non-member: if every recorded moderator is in its room
    before, so it is after. *)
Theorem kick_keeps_moderators_members (st : State) (sid : string) (payload : value) :
  moderators_are_members st ->
  moderators_are_members (final (on_kick_user sid payload st)).
Proof. apply kick_inv. Qed.

(** ** More on joins *)

Lemma add_all_incl sid rooms ms p : In p ms -> In p (add_all sid rooms ms).
Proof.
  unfold add_all. revert ms. induction rooms as [ | r rooms IH]; intros ms H; cbn.
  - exact H.
  - apply IH.
    destruct (existsb (fun p => String.eqb (fst p) sid && Js.eqb (snd p) r) ms);
      [exact H | ].
    apply in_or_app. now left.
Qed.

Section MoreJoinProperties.

Variable JSON_parse : string -> option value.
Variable toLowerCase : string -> string.
Variable db : Db.

(** What a join can do to the state. *)
Lemma join_final st sid msg :
  final (on_join_room JSON_parse toLowerCase db sid msg st) = st \/
  exists payload roomId userEmail isCreator,
    JSON_parse msg = Some payload /\
    Js.prop payload "roomId" = Some roomId /\
    Js.prop payload "userEmail" = Some userEmail /\
    creator_check toLowerCase (creator_email_of db roomId) userEmail = Returned isCreator.
Proof.
  destruct (outcome (on_join_room JSON_parse toLowerCase db sid msg st)) as [[] | e] eqn:Ho.
  - right. now apply join_returned in Ho.
  - left. revert Ho. unfold on_join_room, json_parse.
    destruct (JSON_parse msg) as [payload | ] eqn:Hparse; [ | reflexivity].
    unfold_run. unfold get_prop.
    destruct (Js.prop payload "roomId") as [roomId | ] eqn:Hroom; [ | reflexivity].
    destruct (prop_total _ _ _ "userEmail" Hroom) as [userEmail Hemail].
    destruct (prop_total _ _ _ "userName" Hroom) as [userName Hname].
    destruct (prop_total _ _ _ "userImage" Hroom) as [userImage Himage].
    rewrite Hemail, Hname, Himage. unfold_run.
    rewrite getMeetingCreatorEmail_run. cbn beta iota.
    rewrite is_creator_run.
    destruct (creator_check toLowerCase (creator_email_of db roomId) userEmail)
      as [isCreator | e'] eqn:Hcheck; [ | reflexivity].
    unfold socket_join, fetchSockets.
    destruct isCreator; unfold_run; discriminate.
Qed.

Lemma join_inv (st : State) (sid msg : string) :
  (forall items, room_of JSON_parse msg <> Some (VArr items)) ->
  moderators_are_members st ->
  moderators_are_members (final (on_join_room JSON_parse toLowerCase db sid msg st)).
Proof.
  intros Hone Hinv.
  destruct (join_final st sid msg)
    as [-> | [payload [roomId [userEmail [isCreator [Hparse [Hroom [Hemail Hcheck]]]]]]]];
    [exact Hinv | ].
  rewrite (join_run _ _ _ _ _ _ _ _ _ _ Hparse Hroom Hemail Hcheck). cbn [final].
  assert (Hargs : rooms_arg roomId = [roomId]).
  { unfold room_of in Hone. rewrite Hparse, Hroom in Hone.
    destruct roomId; try reflexivity. now contradiction (Hone items). }
  set (st' := joined_state st sid roomId (joiner_info sid payload userEmail isCreator)).
  assert (Hms : memberships st' = add_all sid [roomId] (memberships st)).
  { subst st'. unfold joined_state. rewrite Hargs.
    destruct (UserInfo.isModerator _); reflexivity. }
  assert (Hold : forall r m, In m (members st r) -> In m (members st' r)).
  { intros r m H. apply members_In in H. destruct H as [p [Hin Hp]].
    apply members_In. exists p. split; [ | exact Hp].
    rewrite Hms. now apply add_all_incl. }
  assert (Hnew : In sid (members st' roomId)).
  { apply is_member_In. unfold is_member. rewrite Hms. apply add_all_adds. now left. }
  intros r m Hget. subst st'. unfold joined_state, joiner_info in Hget.
  cbn [UserInfo.isModerator] in Hget. destruct isCreator; cbn in Hget.
  - destruct (Js.eqb roomId r) eqn:E.
    + apply eqb_eq in E. subst r. rewrite get_set_same in Hget. injection Hget as <-.
      exact Hnew.
    + apply eqb_neq in E. rewrite get_set_other in Hget by assumption.
      apply Hold. now apply Hinv.
  - apply Hold. now apply Hinv.
Qed.




(** X12: in a completed join of a single room the existing-participants
    list is sent once, on the joiner's socket (on this server: to the
    room named by the joiner's id, hence to the joiner, who is in it,
    and to whoever else joined that room).  The list never names the
    joiner; it names every other connected member of the room and
    nobody else; a peer without a registry record appears under the
    name Unknown. *)
Theorem existing_participants_are_the_others (st : State) (sid msg : string) :
  outcome (on_join_room JSON_parse toLowerCase db sid msg st) = Returned tt ->
  (forall items, room_of JSON_parse msg <> Some (VArr items)) ->
  let r := on_join_room JSON_parse toLowerCase db sid msg st in
  exists roomId peers,
    room_of JSON_parse msg = Some roomId /\
    filter (is_sent "existing-participants") (trace r)
    = [Sent (ToRooms [VStr sid] []) (apply (final r) [VStr sid] [])
            "existing-participants"
            (VArr (map (participant (final r)) peers))] /\
    (is_member st sid (VStr sid) = true -> mem sid (sockets st) = true ->
     In sid (apply (final r) [VStr sid] [])) /\
    ~ In sid peers /\
    (forall s, In s peers -> In s (members (final r) roomId) /\ mem s (sockets st) = true) /\
    (forall s, s <> sid -> In s (members st roomId) -> mem s (sockets st) = true ->
               In s peers) /\
    (forall s, JsMap.get (socketUserInfo (final r)) (VStr s) = None ->
               participant (final r) s
               = VObj [("socketId", VStr s);
                       ("userInfo", VObj [("id", VStr s); ("name", VStr "Unknown");
                                          ("email", VStr EmptyString);
                                          ("isModerator", VBool false)])]).
Proof.
  intros Hret Hone r. subst r.
  destruct (join_returned _ _ _ _ _ _ Hret)
    as [payload [roomId [userEmail [isCreator [Hparse [Hroom [Hemail Hcheck]]]]]]].
  rewrite (join_run _ _ _ _ _ _ _ _ _ _ Hparse Hroom Hemail Hcheck).
  cbn [final trace].
  assert (Hargs : rooms_arg roomId = [roomId]).
  { unfold room_of in Hone. rewrite Hparse, Hroom in Hone.
    destruct roomId; try reflexivity. now contradiction (Hone items). }
  rewrite Hargs.
  set (st' := joined_state st sid roomId (joiner_info sid payload userEmail isCreator)).
  assert (Hsock : sockets st' = sockets st).
  { subst st'. unfold joined_state. destruct (UserInfo.isModerator _); reflexivity. }
  assert (Hkeep : forall p, In p (memberships st) -> In p (memberships st')).
  { intros p Hp. subst st'. unfold joined_state.
    destruct (UserInfo.isModerator _); cbn; now apply add_all_incl. }
  exists roomId, (filter (fun s => negb (String.eqb s sid)) (apply st' [roomId] [])).
  split; [unfold room_of; now rewrite Hparse | ]. split.
  - unfold creator_log. destruct (select_creator_email db roomId); reflexivity.
  - split; [ | split; [ | split; [ | split]]].
    + intros Hown Hconn. apply apply_complete; [ | now rewrite Hsock].
      apply is_member_In in Hown. apply members_In in Hown.
      destruct Hown as [p [Hin Hp]]. apply members_In. exists p. auto.
    + intros H. apply filter_In in H. destruct H as [_ H].
      now rewrite String.eqb_refl in H.
    + intros s H. apply filter_In in H. destruct H as [H _].
      apply apply_sound in H. destruct H as [Hconn [r0 [[<- | []] Hm]]].
      rewrite Hsock in Hconn. auto.
    + intros s Hne Hm Hconn. apply filter_In. split.
      * apply apply_complete; [ | now rewrite Hsock].
        apply members_In in Hm. destruct Hm as [p [Hin Hp]].
        apply members_In. exists p. auto.
      * apply negb_true_iff. now apply String.eqb_neq.
    + intros s Hnone. unfold participant. now rewrite Hnone.
Qed.

End MoreJoinProperties.

(** ** More on maps *)

Lemma unique_keys_set {V} (m : JsMap.t V) k v :
  unique_keys m -> unique_keys (JsMap.set m k v).
Proof.
  induction m as [ | [k' x] m IH]; intros H; cbn.
  - auto.
  - destruct H as [Hk Hm]. destruct (Js.eqb k' k) eqn:E; cbn.
    + auto.
    + split; [ | auto]. apply eqb_neq in E.
      rewrite get_set_other by congruence. exact Hk.
Qed.

Lemma get_delete_same {V} (m : JsMap.t V) k :
  unique_keys m -> JsMap.get (JsMap.delete m k) k = None.
Proof.
  induction m as [ | [k' x] m IH]; intros H; cbn; [reflexivity | ].
  destruct H as [Hk Hm]. destruct (Js.eqb k' k) eqn:E; cbn.
  - apply eqb_eq in E. now subst k'.
  - rewrite E. auto.
Qed.

Lemma get_delete_other {V} (m : JsMap.t V) k k' :
  k <> k' -> JsMap.get (JsMap.delete m k) k' = JsMap.get m k'.
Proof.
  intros Hne. induction m as [ | [k0 x] m IH]; cbn; [reflexivity | ].
  destruct (Js.eqb k0 k) eqn:E; cbn.
  - apply eqb_eq in E. subst k0. apply eqb_neq in Hne. now rewrite Hne.
  - now rewrite IH.
Qed.

(** ** Disconnect *)

Lemma occurrences_app p t1 t2 :
  occurrences p (t1 ++ t2) = occurrences p t1 + occurrences p t2.
Proof. unfold occurrences. now rewrite filter_app, length_app. Qed.

Lemma bind_returned {A B} (c : M A) (k : A -> M B) st a st' t :
  c st = mkRun (Returned a) st' t ->
  bind c k st = match k a st' with mkRun o st'' t' => mkRun o st'' (t ++ t') end.
Proof. intros H. unfold bind. now rewrite H. Qed.

Lemma bind_read {B} (k : State -> M B) st : bind read k st = k st st.
Proof. unfold bind, read. now destruct (k st st). Qed.

(** *** The server's clean-up and the adapter *)

Lemma mem_filter_true (p : string -> bool) x l :
  p x = true -> mem x (filter p l) = mem x l.
Proof.
  intros Hx. unfold mem. induction l as [ | y l IH]; [reflexivity | ].
  cbn. destruct (p y) eqn:Hy; cbn; [now rewrite IH | ].
  rewrite IH. destruct (String.eqb x y) eqn:E; [ | reflexivity].
  apply String.eqb_eq in E. subst y. congruence.
Qed.

Lemma uniq_filter (p : string -> bool) l : forall seen,
  uniq (filter p seen) (filter p l) = filter p (uniq seen l).
Proof.
  induction l as [ | x l IH]; intros seen; [reflexivity | ].
  cbn [filter uniq]. destruct (p x) eqn:Hx.
  - cbn [uniq]. rewrite (mem_filter_true p x seen Hx).
    destruct (mem x seen); [apply IH | ].
    cbn [filter]. rewrite Hx. f_equal.
    rewrite <- IH. cbn [filter]. now rewrite Hx.
  - destruct (mem x seen); [apply IH | ].
    cbn [filter]. rewrite Hx. rewrite <- IH. cbn [filter]. now rewrite Hx.
Qed.

Lemma filter_twice {A} (p : A -> bool) l : filter p (filter p l) = filter p l.
Proof.
  induction l as [ | x l IH]; [reflexivity | ].
  cbn. destruct (p x) eqn:E; cbn; [rewrite E | ]; now rewrite IH.
Qed.

Lemma filter_swap {A} (p f g : A -> bool) l :
  (forall x, p x = true -> g x = f x) ->
  filter g (filter p l) = filter p (filter f l).
Proof.
  intros H. induction l as [ | x l IH]; [reflexivity | ].
  cbn. destruct (p x) eqn:Hp; cbn.
  - rewrite (H x Hp). destruct (f x); cbn; [rewrite Hp | ]; now rewrite IH.
  - destruct (f x); cbn; [rewrite Hp | ]; exact IH.
Qed.

Lemma members_cleaned_up sid st room :
  members (cleaned_up sid st) room = others sid (members st room).
Proof.
  unfold members, others, cleaned_up. cbn [memberships with_sockets with_memberships].
  induction (memberships st) as [ | [s r] l IH]; [reflexivity | ].
  cbn. destruct (String.eqb s sid) eqn:Es; cbn.
  - rewrite IH. destruct (Js.eqb r room); cbn; [now rewrite Es | reflexivity].
  - destruct (Js.eqb r room); cbn; [rewrite Es; cbn | ]; now rewrite IH.
Qed.

Lemma flat_map_members_cleaned_up sid st rooms :
  flat_map (members (cleaned_up sid st)) rooms = others sid (flat_map (members st) rooms).
Proof.
  induction rooms as [ | r rooms IH]; [reflexivity | ].
  cbn [flat_map]. rewrite members_cleaned_up, IH. unfold others. now rewrite filter_app.
Qed.

(** After the clean-up the adapter reaches whom it reached before, but
    for the socket that left. *)
Lemma apply_cleaned_up sid st rooms except :
  apply (cleaned_up sid st) rooms except = others sid (apply st rooms except).
Proof.
  unfold apply. rewrite flat_map_members_cleaned_up.
  assert (Hnamed :
    match rooms with
    | [] => uniq [] (map fst (memberships (cleaned_up sid st)))
    | _ :: _ => uniq [] (flat_map (members (cleaned_up sid st)) rooms)
    end
    = others sid match rooms with
                 | [] => uniq [] (map fst (memberships st))
                 | _ :: _ => uniq [] (flat_map (members st) rooms)
                 end).
  { destruct rooms as [ | r rooms].
    - unfold others. rewrite <- (uniq_filter _ _ []). cbn [filter]. f_equal.
      unfold cleaned_up. cbn [memberships with_sockets with_memberships].
      induction (memberships st) as [ | [s r] l IH]; [reflexivity | ].
      cbn. destruct (String.eqb s sid); cbn; now rewrite IH.
    - rewrite flat_map_members_cleaned_up. unfold others.
      now rewrite <- (uniq_filter _ _ []). }
  rewrite Hnamed. unfold others. apply filter_swap. intros x Hx.
  unfold cleaned_up. cbn [sockets with_sockets with_memberships].
  now rewrite !(mem_filter_true _ x _ Hx).
Qed.

Lemma apply_as_left sid cleaned st rooms except :
  others sid (apply (as_left sid cleaned st) rooms except)
  = others sid (apply st rooms except).
Proof.
  destruct cleaned; [ | reflexivity].
  cbn [as_left]. rewrite apply_cleaned_up. unfold others. apply filter_twice.
Qed.

(** *** The listener *)

(** [failover], whenever it runs: the server has cleaned up by the time
    it goes on, and only those still in the room hear of the new
    moderator. *)
Lemma failover_run sid roomId cleaned st :
  failover sid roomId cleaned (as_left sid cleaned st)
  = mkRun (Returned tt) (cleaned_up sid (promote_successor sid roomId st))
          (hand_over_trace sid roomId st).
Proof.
  assert (Hfetch : fetchSockets roomId (as_left sid cleaned st)
                   = mkRun (Returned (apply (as_left sid cleaned st) (rooms_arg roomId) []))
                           (as_left sid cleaned st) []) by reflexivity.
  assert (Hsusp : suspend sid cleaned (as_left sid cleaned st)
                  = mkRun (Returned tt) (cleaned_up sid st) []).
  { unfold suspend, transport_close. destruct cleaned; reflexivity. }
  unfold failover.
  rewrite (bind_returned _ _ _ _ _ _ Hfetch), (bind_returned _ _ _ _ _ _ Hsusp).
  pose proof (apply_as_left sid cleaned st (rooms_arg roomId) []) as Hothers.
  unfold others in Hothers. rewrite Hothers.
  unfold hand_over_trace, promote_successor, successor_of, others.
  destruct (filter (fun s => negb (String.eqb s sid)) (apply st (rooms_arg roomId) []))
    as [ | successor rest] eqn:Ho; cbn [hd_error]; [reflexivity | ].
  destruct (Js.truthy (VStr successor)); [ | reflexivity].
  pose proof (apply_cleaned_up sid st (rooms_arg roomId) []) as Hto.
  unfold others in Hto. rewrite Ho in Hto.
  unfold_run.
  change (socketUserInfo
            (with_roomModerators (fun m => JsMap.set m roomId successor)
               (cleaned_up sid st)))
    with (socketUserInfo st).
  destruct (JsMap.get (socketUserInfo st) (VStr successor)) as [info | ];
    unfold_run; cbn [recipients app].
  - change (apply (with_socketUserInfo
                     (fun m => JsMap.set m (VStr successor) (UserInfo.promote info))
                     (with_roomModerators (fun m => JsMap.set m roomId successor)
                        (cleaned_up sid st))) (rooms_arg roomId) [])
      with (apply (cleaned_up sid st) (rooms_arg roomId) []).
    rewrite Hto. reflexivity.
  - change (apply (with_roomModerators (fun m => JsMap.set m roomId successor)
                     (cleaned_up sid st)) (rooms_arg roomId) [])
      with (apply (cleaned_up sid st) (rooms_arg roomId) []).
    rewrite Hto. reflexivity.
Qed.

Lemma hand_over_memberships sid roomId st :
  memberships (hand_over sid roomId st) = memberships st /\
  sockets (hand_over sid roomId st) = sockets st.
Proof.
  unfold hand_over, promote_successor. destruct (is_moderator st roomId sid); [ | auto].
  destruct (successor_of st sid roomId) as [successor | ]; [ | auto].
  destruct (Js.truthy (VStr successor)); [ | auto].
  destruct (JsMap.get (socketUserInfo st) (VStr successor)); auto.
Qed.

Lemma emit_closing_run sid rooms event payload st :
  emit_closing sid (ToRooms rooms []) event payload st
  = mkRun (Returned tt) st [Sent (ToRooms rooms []) (others sid (apply st rooms [])) event payload].
Proof. reflexivity. Qed.

(** The loop, run on the state as the listener finds it. *)
Lemma leave_rooms_run sid userInfo rooms : forall cleaned st,
  leave_rooms sid userInfo rooms cleaned (as_left sid cleaned st)
  = mkRun (Returned (cleaned || suspended sid rooms st))
          (as_left sid (cleaned || suspended sid rooms st) (hand_over_all sid rooms st))
          (leave_trace sid userInfo rooms st).
Proof.
  induction rooms as [ | roomId rooms IH]; intros cleaned st.
  - cbn. now rewrite orb_false_r.
  - cbn [leave_rooms suspended leave_trace]. rewrite bind_read. cbv zeta.
    replace (is_moderator (as_left sid cleaned st) roomId sid)
      with (is_moderator st roomId sid) by (destruct cleaned; reflexivity).
    change (hand_over_all sid (roomId :: rooms) st)
      with (hand_over_all sid rooms (hand_over sid roomId st)).
    unfold hand_over, peer_left.
    destruct (is_moderator st roomId sid) eqn:Hmod; cbn [when orb].
    + rewrite (bind_returned _ _ _ _ _ _ (failover_run sid roomId cleaned st)).
      rewrite (bind_returned _ _ _ _ _ _ (emit_closing_run _ _ _ _ _)).
      rewrite orb_true_r.
      specialize (IH true (promote_successor sid roomId st)). cbn [orb as_left] in IH.
      rewrite IH. rewrite apply_cleaned_up.
      assert (Hm : memberships (promote_successor sid roomId st) = memberships st /\
                   sockets (promote_successor sid roomId st) = sockets st).
      { pose proof (hand_over_memberships sid roomId st) as H.
        unfold hand_over in H. now rewrite Hmod in H. }
      destruct Hm as [Hm Hk]. rewrite (apply_ext _ st _ _ Hm Hk).
      unfold others. rewrite filter_twice. reflexivity.
    + unfold ret at 1.
      rewrite (bind_returned _ _ _ _ (as_left sid cleaned st) [] eq_refl).
      rewrite (bind_returned _ _ _ _ _ _ (emit_closing_run _ _ _ _ _)).
      rewrite orb_false_r. rewrite (IH cleaned st).
      rewrite apply_as_left. reflexivity.
Qed.

(** The whole run of the disconnecting handler. *)
Lemma disconnecting_run st sid :
  let userInfo := JsMap.get (socketUserInfo st) (VStr sid) in
  let cleaned := suspended sid (rooms_left st sid) st in
  on_disconnecting sid st
  = mkRun (Returned cleaned)
          (with_socketUserInfo (fun m => JsMap.delete m (VStr sid))
             (as_left sid cleaned (hand_over_all sid (rooms_left st sid) st)))
          (leave_trace sid userInfo (rooms_left st sid) st).
Proof.
  cbv zeta. unfold on_disconnecting. rewrite bind_read.
  pose proof (leave_rooms_run sid (JsMap.get (socketUserInfo st) (VStr sid))
                (rooms_left st sid) false st) as Hrun.
  cbn [as_left orb] in Hrun. unfold rooms_left in *.
  rewrite (bind_returned _ _ _ _ _ _ Hrun). unfold_run. now rewrite app_nil_r.
Qed.

Lemma promote_successor_frame sid r st :
  same_store st (promote_successor sid r st) /\
  memberships (promote_successor sid r st) = memberships st /\
  sockets (promote_successor sid r st) = sockets st /\
  (unique_keys (socketUserInfo st) ->
   unique_keys (socketUserInfo (promote_successor sid r st))).
Proof.
  unfold promote_successor.
  destruct (successor_of st sid r) as [successor | ]; [ | repeat split; auto].
  destruct (Js.truthy (VStr successor)); [ | repeat split; auto].
  destruct (JsMap.get (socketUserInfo st) (VStr successor)); repeat split; auto.
  cbn. apply unique_keys_set.
Qed.

Lemma hand_over_frame sid r st :
  same_store st (hand_over sid r st) /\
  memberships (hand_over sid r st) = memberships st /\
  sockets (hand_over sid r st) = sockets st /\
  (unique_keys (socketUserInfo st) -> unique_keys (socketUserInfo (hand_over sid r st))).
Proof.
  unfold hand_over. destruct (is_moderator st r sid).
  - apply promote_successor_frame.
  - repeat split; auto.
Qed.

Lemma hand_over_all_frame sid rooms : forall st,
  same_store st (hand_over_all sid rooms st) /\
  memberships (hand_over_all sid rooms st) = memberships st /\
  sockets (hand_over_all sid rooms st) = sockets st /\
  (unique_keys (socketUserInfo st) ->
   unique_keys (socketUserInfo (hand_over_all sid rooms st))).
Proof.
  induction rooms as [ | r rooms IH]; intros st.
  - repeat split; auto.
  - change (hand_over_all sid (r :: rooms) st)
      with (hand_over_all sid rooms (hand_over sid r st)).
    destruct (hand_over_frame sid r st) as [[Hc Hb] [Hm [Hk Hu]]].
    destruct (IH (hand_over sid r st)) as [[Hc' Hb'] [Hm' [Hk' Hu']]].
    unfold same_store. repeat split; try congruence. auto.
Qed.

Lemma hand_over_all_plain sid rooms st :
  (forall r, is_moderator st r sid = false) -> hand_over_all sid rooms st = st.
Proof.
  intros H. induction rooms as [ | r rooms IH]; cbn; [reflexivity | ].
  unfold hand_over at 2. now rewrite H.
Qed.

(** X13: when the departing moderator's room has another connected member,
    [failover] names exactly one successor: the first connected member,
    in the room's join order, that is not the one leaving.  When it
    goes on after collecting the room's sockets the server has taken
    the leaving socket out of its rooms: the tracker then records the
    successor, its registry record (if it has one) is flagged as
    moderator, and those still in the room, the successor among them,
    get one moderator-changed event naming it. *)
Theorem failover_promotes_first_other (st : State) (sid : string) (roomId : value)
        (successor : string) :
  successor_of st sid roomId = Some successor ->
  successor <> EmptyString ->
  let r := failover sid roomId false st in
  let still_there := others sid (apply st (rooms_arg roomId) []) in
  outcome r = Returned tt /\
  trace r =
    [Sent (ToRooms (rooms_arg roomId) []) still_there
          "moderator-changed"
          (VObj [("newModeratorId", VStr successor);
                 ("newModeratorName",
                  Js.or (match JsMap.get (socketUserInfo st) (VStr successor) with
                         | Some info => UserInfo.name info
                         | None => VUndefined
                         end) (VStr "Unknown"))])] /\
  roomModerators (final r) = JsMap.set (roomModerators st) roomId successor /\
  JsMap.get (roomModerators (final r)) roomId = Some successor /\
  JsMap.get (socketUserInfo (final r)) (VStr successor)
  = option_map UserInfo.promote (JsMap.get (socketUserInfo st) (VStr successor)) /\
  successor <> sid /\
  In successor still_there /\
  ~ In sid still_there /\
  same_store st (final r) /\
  memberships (final r)
  = filter (fun p => negb (String.eqb (fst p) sid)) (memberships st) /\
  sockets (final r) = filter (fun s => negb (String.eqb s sid)) (sockets st).
Proof.
  intros Hsucc Hne r still_there. subst r still_there.
  assert (Hin : In successor (others sid (apply st (rooms_arg roomId) []))).
  { unfold successor_of in Hsucc. unfold others.
    destruct (filter _ _) as [ | x l]; [discriminate | ].
    injection Hsucc as ->. now left. }
  assert (Hnot : successor <> sid).
  { unfold others in Hin. apply filter_In in Hin. destruct Hin as [_ Hnot].
    apply negb_true_iff in Hnot. now apply String.eqb_neq in Hnot. }
  assert (Htruthy : Js.truthy (VStr successor) = true).
  { cbn. apply negb_true_iff. now apply String.eqb_neq. }
  pose proof (failover_run sid roomId false st) as Hrun. cbn [as_left] in Hrun.
  rewrite Hrun. unfold hand_over_trace, promote_successor. rewrite Hsucc, Htruthy.
  cbn [outcome final trace].
  split; [reflexivity | ]. split; [reflexivity | ].
  assert (Hleft : ~ In sid (others sid (apply st (rooms_arg roomId) []))).
  { unfold others. intros H. apply filter_In in H. destruct H as [_ H].
    now rewrite String.eqb_refl in H. }
  destruct (JsMap.get (socketUserInfo st) (VStr successor)) as [info | ] eqn:Hinfo;
    cbn; rewrite ?Hinfo; repeat split; auto using get_set_same.
Qed.

Lemma suspended_plain sid rooms st :
  (forall r, is_moderator st r sid = false) -> suspended sid rooms st = false.
Proof.
  intros H. induction rooms as [ | r rooms IH]; [reflexivity | ].
  cbn [suspended]. unfold hand_over. now rewrite H.
Qed.

Section LeaveTrace.

Variable st : State.
Variable sid : string.
Variable userInfo : option UserInfo.t.

(** What the loop sends, read from the state the listener started in. *)
Lemma leave_trace_sent rooms : forall s,
  memberships s = memberships st -> sockets s = sockets st ->
  filter (is_sent "peer-left") (leave_trace sid userInfo rooms s)
  = map (fun roomId =>
           Sent (ToRooms (rooms_arg roomId) []) (others sid (apply st (rooms_arg roomId) []))
                "peer-left"
                (VObj [("socketId", VStr sid); ("reason", VStr "disconnected");
                       ("userInfo", opt_info userInfo)])) rooms /\
  occurrences (is_sent "moderator-changed") (leave_trace sid userInfo rooms s)
  <= List.length rooms /\
  (forall e, In e (leave_trace sid userInfo rooms s) ->
     is_sent "peer-left" e = true \/
     exists roomId successor name,
       In roomId rooms /\ successor <> sid /\
       In successor (apply st (rooms_arg roomId) []) /\
       e = Sent (ToRooms (rooms_arg roomId) [])
                (others sid (apply st (rooms_arg roomId) []))
                "moderator-changed"
                (VObj [("newModeratorId", VStr successor); ("newModeratorName", name)])).
Proof.
  induction rooms as [ | roomId rooms IH]; intros s Hm Hk.
  - cbn. repeat split; [lia | contradiction].
  - cbn [leave_trace].
    destruct (hand_over_memberships sid roomId s) as [Hm' Hk'].
    destruct (IH (hand_over sid roomId s)) as [Hpl [Hmc Hall]]; [congruence | congruence | ].
    assert (Happly : apply s (rooms_arg roomId) [] = apply st (rooms_arg roomId) [])
      by now apply apply_ext.
    assert (Hover :
      (if is_moderator s roomId sid then hand_over_trace sid roomId s else []) = [] \/
      exists successor name,
        successor <> sid /\ In successor (apply st (rooms_arg roomId) []) /\
        (if is_moderator s roomId sid then hand_over_trace sid roomId s else [])
        = [Sent (ToRooms (rooms_arg roomId) [])
                (others sid (apply st (rooms_arg roomId) []))
                "moderator-changed"
                (VObj [("newModeratorId", VStr successor); ("newModeratorName", name)])]).
    { destruct (is_moderator s roomId sid); [ | now left].
      unfold hand_over_trace, successor_of. rewrite Happly.
      destruct (filter (fun x => negb (String.eqb x sid)) (apply st (rooms_arg roomId) []))
        as [ | successor l] eqn:Hf; cbn [hd_error]; [now left | ].
      destruct (Js.truthy (VStr successor)); [ | now left].
      right. eexists successor, _.
      assert (Hin : In successor (filter (fun x => negb (String.eqb x sid))
                                         (apply st (rooms_arg roomId) [])))
        by (rewrite Hf; now left).
      apply filter_In in Hin. destruct Hin as [Hin Hnot].
      apply negb_true_iff in Hnot. apply String.eqb_neq in Hnot.
      split; [exact Hnot | ]. split; [exact Hin | reflexivity]. }
    unfold peer_left at 1 2 3. rewrite Happly.
    destruct Hover as [-> | [successor [name [Hne [Hin ->]]]]].
    + cbn [app filter is_sent String.eqb Ascii.eqb Bool.eqb andb map].
      rewrite Hpl. split; [reflexivity | ]. split.
      * unfold occurrences in *. cbn. lia.
      * intros e [<- | He]; [now left | ].
        destruct (Hall e He) as [Hl | [r0 [s0 [n0 [Hr0 H0]]]]]; [now left | ].
        right. exists r0, s0, n0. split; [now right | exact H0].
    + cbn [app filter is_sent String.eqb Ascii.eqb Bool.eqb andb map].
      rewrite Hpl. split; [reflexivity | ]. split.
      * unfold occurrences in *. cbn. lia.
      * intros e [<- | [<- | He]].
        -- right. exists roomId, successor, name. split; [now left | auto].
        -- now left.
        -- destruct (Hall e He) as [Hl | [r0 [s0 [n0 [Hr0 H0]]]]]; [now left | ].
           right. exists r0, s0, n0. split; [now right | exact H0].
Qed.

End LeaveTrace.


(** X15: when the departing socket moderates no room, the disconnecting
    handler changes nothing but the registry, from which it deletes the
    socket's record: no successor is sought and the tracker is as
    before. *)
Theorem disconnecting_of_participant (st : State) (sid : string) :
  (forall r, is_moderator st r sid = false) ->
  final (on_disconnecting sid st)
  = with_socketUserInfo (fun m => JsMap.delete m (VStr sid)) st.
Proof.
  intros Hplain. rewrite (disconnecting_run st sid). cbn [final].
  rewrite (suspended_plain sid _ st Hplain). cbn [as_left].
  now rewrite hand_over_all_plain.
Qed.

Lemma mem_filter_out sid l :
  mem sid (filter (fun s => negb (String.eqb s sid)) l) = false.
Proof.
  unfold mem. induction l as [ | x l IH]; [reflexivity | ].
  cbn. destruct (String.eqb x sid) eqn:E; cbn; [exact IH | ].
  rewrite String.eqb_sym, E. exact IH.
Qed.

Lemma member_filter_out sid room (l : list (string * value)) :
  existsb (fun p => String.eqb (fst p) sid && Js.eqb (snd p) room)
          (filter (fun p => negb (String.eqb (fst p) sid)) l) = false.
Proof.
  induction l as [ | p l IH]; [reflexivity | ].
  cbn. destruct (String.eqb (fst p) sid) eqn:E; cbn; [exact IH | ].
  rewrite E. exact IH.
Qed.

Section DisconnectProperties.

Variable JSON_parse : string -> option value.
Variable toLowerCase : string -> string.
Variable toISOString : Z -> string.
Variable db : Db.

(** The state a disconnect leaves. *)
Lemma disconnect_final st sid :
  final (handle JSON_parse toLowerCase toISOString db (Disconnect sid) st)
  = with_sockets (filter (fun s => negb (String.eqb s sid)))
      (with_memberships (filter (fun p => negb (String.eqb (fst p) sid)))
         (with_socketUserInfo (fun m => JsMap.delete m (VStr sid))
            (hand_over_all sid (rooms_left st sid) st))).
Proof.
  cbn [handle]. rewrite (bind_returned _ _ _ _ _ _ (disconnecting_run st sid)).
  unfold transport_close.
  destruct (suspended sid (rooms_left st sid) st); cbn [as_left negb when];
    unfold_run; rewrite ?app_nil_r; reflexivity.
Qed.

(** X16: after a disconnect the socket is in no room, is no longer among
    the connections and (the registry being a map) has no registry
    record; every other socket is in the rooms it was in and connected
    as before. *)
Theorem disconnect_forgets_the_socket (st : State) (sid : string) :
  unique_keys (socketUserInfo st) ->
  let st' := final (handle JSON_parse toLowerCase toISOString db (Disconnect sid) st) in
  mem sid (sockets st') = false /\
  (forall room, is_member st' sid room = false) /\
  JsMap.get (socketUserInfo st') (VStr sid) = None /\
  (forall s room, s <> sid -> is_member st' s room = is_member st s room) /\
  (forall s, s <> sid -> mem s (sockets st') = mem s (sockets st)) /\
  same_store st st'.
Proof.
  intros Huniq. cbv zeta. rewrite disconnect_final.
  destruct (hand_over_all_frame sid (rooms_left st sid) st) as [Hs [Hm [Hk Hu]]].
  set (loop := hand_over_all sid (rooms_left st sid) st) in *.
  set (st' := with_sockets _ _).
  assert (Hsock : sockets st' = filter (fun s => negb (String.eqb s sid)) (sockets st))
    by (subst st'; cbn; now rewrite Hk).
  assert (Hmem : memberships st'
                 = filter (fun p => negb (String.eqb (fst p) sid)) (memberships st))
    by (subst st'; cbn; now rewrite Hm).
  assert (Hreg : socketUserInfo st' = JsMap.delete (socketUserInfo loop) (VStr sid))
    by reflexivity.
  assert (Hstore : same_store st st') by exact Hs.
  clearbody st'.
  split; [ | split; [ | split; [ | split; [ | split]]]].
  - rewrite Hsock. apply mem_filter_out.
  - intros room. unfold is_member. rewrite Hmem. apply member_filter_out.
  - rewrite Hreg. apply get_delete_same. auto.
  - intros s room Hne. unfold is_member. rewrite Hmem.
    apply existsb_filter_other. intros p Hp. apply andb_true_iff in Hp.
    destruct Hp as [Hp _]. apply String.eqb_eq in Hp.
    apply negb_true_iff. apply String.eqb_neq. congruence.
  - intros s Hne. unfold mem. rewrite Hsock. apply existsb_filter_other. intros x Hx.
    apply String.eqb_eq in Hx. subst x. apply negb_true_iff.
    now apply String.eqb_neq.
  - exact Hstore.
Qed.

End DisconnectProperties.

Section HandOver.

Variable st : State.
Variable sid : string.
Hypothesis Hinv : moderators_are_members st.
Hypothesis Hcan : can_hand_over st sid.
Hypothesis Hids : mem EmptyString (sockets st) = false.

Lemma handing_over_start : handing_over st sid (rooms_left st sid) st.
Proof.
  repeat split; auto.
  destruct (Hcan r H) as [Hown _].
  apply Hinv in H. apply members_In in H. destruct H as [p [Hin [Hs Hr]]].
  unfold rooms_left, rooms_of. apply filter_In. split.
  - apply in_map_iff. exists p. split; [assumption | ].
    apply filter_In. split; [assumption | ]. rewrite Hs. apply String.eqb_refl.
  - apply negb_true_iff. now apply eqb_neq.
Qed.

Lemma handing_over_step r0 rest s :
  handing_over st sid (r0 :: rest) s -> handing_over st sid rest (hand_over sid r0 s).
Proof.
  intros [Hm [Hk [Hin Hsid]]]. unfold hand_over.
  destruct (is_moderator s r0 sid) eqn:Hmod.
  - apply is_moderator_get in Hmod. destruct (Hsid r0 Hmod) as [_ Horig].
    destruct (Hcan r0 Horig) as [_ [Hargs [other [Hne [Hother Hconn]]]]].
    assert (Happly : apply s (rooms_arg r0) [] = apply st [r0] []).
    { rewrite Hargs. now apply apply_ext. }
    unfold promote_successor, successor_of. rewrite Happly.
    assert (Hsome : In other (filter (fun x => negb (String.eqb x sid)) (apply st [r0] []))).
    { apply filter_In. split; [now apply apply_complete | ].
      apply negb_true_iff. now apply String.eqb_neq. }
    destruct (filter (fun x => negb (String.eqb x sid)) (apply st [r0] []))
      as [ | successor l] eqn:Hf; [contradiction | ]. cbn [hd_error].
    assert (Hsucc : In successor (filter (fun x => negb (String.eqb x sid))
                                         (apply st [r0] [])))
      by (rewrite Hf; now left).
    apply filter_In in Hsucc. destruct Hsucc as [Hsucc Hnot].
    apply negb_true_iff in Hnot. apply String.eqb_neq in Hnot.
    apply apply_sound in Hsucc. destruct Hsucc as [Hsconn [r1 [[<- | []] Hsmem]]].
    assert (Htruthy : Js.truthy (VStr successor) = true).
    { cbn. apply negb_true_iff. apply String.eqb_neq. intros ->. congruence. }
    rewrite Htruthy.
    assert (Hgoal : forall s',
               memberships s' = memberships s -> sockets s' = sockets s ->
               roomModerators s' = JsMap.set (roomModerators s) r0 successor ->
               handing_over st sid rest s').
    { intros s' Hm' Hk' Ht'. unfold handing_over. rewrite Hm', Hk', Ht'.
      split; [assumption | ]. split; [assumption | ]. split.
      - intros r m Hget. destruct (Js.eqb r0 r) eqn:E.
        + apply eqb_eq in E. subst r. rewrite get_set_same in Hget.
          injection Hget as <-. exact Hsmem.
        + apply eqb_neq in E. rewrite get_set_other in Hget by assumption. eauto.
      - intros r Hget. destruct (Js.eqb r0 r) eqn:E.
        + apply eqb_eq in E. subst r. rewrite get_set_same in Hget. congruence.
        + apply eqb_neq in E. rewrite get_set_other in Hget by assumption.
          destruct (Hsid r Hget) as [[<- | Hrest] Ho]; [now contradiction E | auto]. }
    destruct (JsMap.get (socketUserInfo s) (VStr successor)); apply Hgoal; reflexivity.
  - split; [assumption | ]. split; [assumption | ]. split; [assumption | ].
    intros r Hget. destruct (Hsid r Hget) as [[<- | Hrest] Ho]; [ | auto].
    apply is_moderator_get in Hget. congruence.
Qed.

Lemma handing_over_loop rooms : forall s,
  handing_over st sid rooms s -> handing_over st sid [] (hand_over_all sid rooms s).
Proof.
  induction rooms as [ | r rooms IH]; intros s H; [exact H | ].
  cbn. apply IH. now apply handing_over_step.
Qed.

Lemma hand_over_all_members r m :
  JsMap.get (roomModerators (hand_over_all sid (rooms_left st sid) st)) r = Some m ->
  m <> sid /\ In m (members st r).
Proof.
  intros Hget. destruct (handing_over_loop _ _ handing_over_start) as [_ [_ [Hin Hsid]]].
  split; [ | eauto]. intros ->. destruct (Hsid r Hget) as [[] _].
Qed.

End HandOver.

Lemma disconnect_inv
        (JSON_parse : string -> option value) (toLowerCase : string -> string)
        (toISOString : Z -> string) (db : Db) (st : State) (sid : string) :
  moderators_are_members st ->
  can_hand_over st sid ->
  mem EmptyString (sockets st) = false ->
  moderators_are_members
    (final (handle JSON_parse toLowerCase toISOString db (Disconnect sid) st)).
Proof.
  intros Hinv Hcan Hids. rewrite disconnect_final. intros r m Hget.
  cbn [roomModerators with_sockets with_memberships with_socketUserInfo] in Hget.
  destruct (hand_over_all_members st sid Hinv Hcan Hids r m Hget) as [Hne Hin].
  destruct (hand_over_all_frame sid (rooms_left st sid) st) as [_ [Hm _]].
  apply members_In in Hin. destruct Hin as [p [Hin [Hs Hr]]].
  apply members_In. exists p. split; [ | auto].
  cbn [memberships with_sockets with_memberships with_socketUserInfo].
  rewrite Hm. apply filter_In. split; [assumption | ].
  apply negb_true_iff. apply String.eqb_neq. congruence.
Qed.

(** X17: a disconnect keeps every recorded moderator a member of its room,
    provided the departing socket can be replaced wherever it is the
    moderator: each such room is a single room other than the one named
    by the socket's own id and has another connected member.  (No
    connected socket has the empty id.) *)
Theorem disconnect_keeps_moderators_members
        (JSON_parse : string -> option value) (toLowerCase : string -> string)
        (toISOString : Z -> string) (db : Db) (st : State) (sid : string) :
  moderators_are_members st ->
  can_hand_over st sid ->
  mem EmptyString (sockets st) = false ->
  moderators_are_members
    (final (handle JSON_parse toLowerCase toISOString db (Disconnect sid) st)).
Proof. apply disconnect_inv. Qed.

(** ** From chat to database; signaling after a disconnect *)

Lemma batch_of_app db cache l1 l2 :
  batch_of db cache (l1 ++ l2) = batch_of db cache l1 ++ batch_of db cache l2.
Proof. unfold batch_of. apply flat_map_app. Qed.


Lemma no_member_no_audience st room :
  (forall s, ~ In s (members st room)) -> apply st [room] [] = [].
Proof.
  intros H. destruct (apply st [room] []) as [ | s l] eqn:E; [reflexivity | ].
  assert (Hin : In s (apply st [room] [])) by (rewrite E; now left).
  apply apply_sound in Hin. destruct Hin as [_ [r [[<- | []] Hm]]].
  now contradiction (H s).
Qed.

Section DepartedProperties.

Variable JSON_parse : string -> option value.
Variable toLowerCase : string -> string.
Variable toISOString : Z -> string.
Variable db : Db.

Lemma disconnect_memberships st sid :
  let st' := final (handle JSON_parse toLowerCase toISOString db (Disconnect sid) st) in
  memberships st' = filter (fun p => negb (String.eqb (fst p) sid)) (memberships st) /\
  sockets st' = filter (fun s => negb (String.eqb s sid)) (sockets st).
Proof.
  cbv zeta. rewrite disconnect_final.
  destruct (hand_over_all_frame sid (rooms_left st sid) st) as [_ [Hm [Hk _]]].
  cbn. now rewrite Hm, Hk.
Qed.

(** X19: signaling addressed to a socket that has disconnected is dropped
    without a word: the relay still returns normally and changes
    nothing, the event reaches nobody, and the sender gets no error.
    (Nobody else had joined the room named by the departed socket's
    id.) *)
Theorem relay_to_departed_is_dropped (st : State) (sid target : string) (payload : value) :
  (forall s, In s (members st (VStr target)) -> s = target) ->
  Js.prop payload "to" = Some (VStr target) ->
  let st' := final (handle JSON_parse toLowerCase toISOString db (Disconnect target) st) in
  (exists sent,
      on_offer sid payload st'
      = mkRun (Returned tt) st' [Sent (ToRooms [VStr target] []) [] "offer" sent]) /\
  (exists sent,
      on_answer sid payload st'
      = mkRun (Returned tt) st' [Sent (ToRooms [VStr target] []) [] "answer" sent]) /\
  on_ice_candidate sid payload st'
  = mkRun (Returned tt) st' [Sent (ToRooms [VStr target] []) [] "ice-candidate" payload].
Proof.
  intros Hown Hto st'.
  assert (Hnone : apply st' [VStr target] [] = []).
  { apply no_member_no_audience. intros s Hin.
    apply members_In in Hin. destruct Hin as [p [Hin [Hs Hr]]].
    destruct (disconnect_memberships st target) as [Hm _]. fold st' in Hm.
    rewrite Hm in Hin. apply filter_In in Hin. destruct Hin as [Hin Hf].
    apply negb_true_iff in Hf. apply String.eqb_neq in Hf.
    apply Hf. rewrite Hs. apply Hown. apply members_In. eauto. }
  clearbody st'.
  unfold on_offer, on_answer, relay_with_sender, on_ice_candidate, get_prop.
  rewrite Hto. unfold_run. cbn [recipients rooms_arg app]. rewrite Hnone.
  repeat split; eexists; reflexivity.
Qed.

End DepartedProperties.

(** ** Runs *)

Lemma same_sockets_refl st : same_sockets st st.
Proof. reflexivity. Qed.

Lemma same_sockets_trans a b c : same_sockets a b -> same_sockets b c -> same_sockets a c.
Proof. unfold same_sockets. congruence. Qed.

Ltac sockets_frame := keeps_auto same_sockets_refl same_sockets_trans; reflexivity.

Lemma mem_filter_keeps x (f : string -> bool) l :
  mem x l = false -> mem x (filter f l) = false.
Proof.
  unfold mem. induction l as [ | y l IH]; [reflexivity | ].
  cbn. intros H. apply orb_false_iff in H. destruct H as [Hy Hl].
  destruct (f y); cbn; [rewrite Hy | ]; auto.
Qed.

Section SafeRunProperties.

Variable JSON_parse : string -> option value.
Variable toLowerCase : string -> string.
Variable toISOString : Z -> string.
Variable db : Db.

Lemma join_keeps_sockets sid msg :
  keeps same_sockets (on_join_room JSON_parse toLowerCase db sid msg).
Proof.
  unfold on_join_room, json_parse, getMeetingCreatorEmail, is_creator, call_toLowerCase,
    socket_join, fetchSockets.
  sockets_frame.
Qed.

Lemma kick_keeps_sockets sid payload : keeps same_sockets (on_kick_user sid payload).
Proof. unfold on_kick_user, kick_error, socket_leave. sockets_frame. Qed.

(** A step from a state without empty ids that keeps the tracker in
    line with the membership index. *)
Lemma safe_step st ev :
  safe_event JSON_parse st ev ->
  moderators_are_members st /\ mem EmptyString (sockets st) = false ->
  let st' := final (handle JSON_parse toLowerCase toISOString db ev st) in
  moderators_are_members st' /\ mem EmptyString (sockets st') = false.
Proof.
  intros Hsafe [Hinv Hids] st'.
  destruct (room_event ev) eqn:Hroom.
  - destruct ev as [sid | | sid msg | | | | sid payload | sid | ]; try discriminate;
      cbn [safe_event] in Hsafe.
    + (* connection *)
      assert (Hst' : st' = with_memberships (add_all sid [VStr sid])
                             (with_sockets (fun l => l ++ [sid]) st)) by reflexivity.
      rewrite Hst'. split.
      * intros r m Hget. cbn in Hget. apply Hinv in Hget.
        apply members_In in Hget. destruct Hget as [p [Hin Hp]].
        apply members_In. exists p. split; [ | exact Hp].
        cbn [memberships with_memberships with_sockets]. now apply add_all_incl.
      * cbn [sockets with_memberships with_sockets]. unfold mem in *.
        rewrite existsb_app, Hids. cbn. rewrite orb_false_r.
        destruct sid; [congruence | reflexivity].
    + (* join *)
      split.
      * now apply join_inv.
      * subst st'. cbn [handle]. rewrite (join_keeps_sockets sid msg st). exact Hids.
    + (* kick *)
      split.
      * now apply kick_inv.
      * subst st'. cbn [handle]. rewrite (kick_keeps_sockets sid payload st). exact Hids.
    + (* disconnect *)
      split.
      * now apply disconnect_inv.
      * destruct (disconnect_memberships JSON_parse toLowerCase toISOString db st sid)
          as [_ Hk]. fold st' in Hk. rewrite Hk. now apply mem_filter_keeps.
  - destruct (chat_and_signal_events_frame JSON_parse toLowerCase toISOString db ev st Hroom)
      as [Ht [_ [Hm Hk]]]. fold st' in Ht, Hm, Hk.
    split.
    + intros r m Hget. rewrite Ht in Hget. apply Hinv in Hget.
      unfold members in *. now rewrite Hm.
    + now rewrite Hk.
Qed.

Lemma safe_run_invariant evs : forall st,
  safe_run JSON_parse toLowerCase toISOString db evs st ->
  moderators_are_members st /\ mem EmptyString (sockets st) = false ->
  moderators_are_members (run JSON_parse toLowerCase toISOString db evs st).
Proof.
  induction evs as [ | ev evs IH]; intros st Hsafe Hst; cbn [run]; [apply Hst | ].
  destruct Hsafe as [Hev Hrest]. apply IH; [exact Hrest | ]. now apply safe_step.
Qed.


End SafeRunProperties.

(** ** The earlier module *)

Lemma envelopes_app t1 t2 : envelopes (t1 ++ t2) = envelopes t1 ++ envelopes t2.
Proof. unfold envelopes. apply flat_map_app. Qed.

Section LegacyProperties.

Variable JSON_parse : string -> option value.
Variable toLowerCase : string -> string.
Variable db : Db.

(** X21: a join-room the module completes is a join of the earlier
    module too: the earlier handler completes on the same message,
    joins the same rooms, leaves the same room memberships and
    connections, and announces the peer to the same address and
    recipients.  Both then send one existing-participants event that
    lists the same peers in the same order; the earlier module sends it
    to the joiner's connection alone and gives socket ids only, the
    module sends it to the room named by the joiner's id and adds each
    peer's record.  Neither sends anything else; the earlier handler
    changes nothing but the membership index. *)
Theorem join_is_legacy_for_transport (st : State) (sid msg : string) :
  outcome (on_join_room JSON_parse toLowerCase db sid msg st) = Returned tt ->
  let r := on_join_room JSON_parse toLowerCase db sid msg st in
  let l := Legacy.on_join_room JSON_parse sid msg st in
  outcome l = Returned tt /\
  memberships (final l) = memberships (final r) /\
  sockets (final l) = sockets (final r) /\
  filter (is_joined sid) (trace l) = filter (is_joined sid) (trace r) /\
  envelopes (filter (is_sent "peer-joined") (trace l))
  = envelopes (filter (is_sent "peer-joined") (trace r)) /\
  (exists roomId,
      room_of JSON_parse msg = Some roomId /\
      let peers := others sid (apply (final r) (rooms_arg roomId) []) in
      filter (is_sent "existing-participants") (trace l)
      = [Sent (ToSocket sid) [sid] "existing-participants"
              (VArr (map (fun s => VObj [("socketId", VStr s)]) peers))] /\
      filter (is_sent "existing-participants") (trace r)
      = [Sent (ToRooms [VStr sid] []) (apply (final r) [VStr sid] [])
              "existing-participants"
              (VArr (map (participant (final r)) peers))]) /\
  List.length (envelopes (trace l)) = 2 /\
  List.length (envelopes (trace r)) = 2 /\
  roomModerators (final l) = roomModerators st /\
  socketUserInfo (final l) = socketUserInfo st /\
  same_store st (final l).
Proof.
  intros Hret r l. subst r l.
  destruct (join_returned _ _ _ _ _ _ Hret)
    as [payload [roomId [userEmail [isCreator [Hparse [Hroom [Hemail Hcheck]]]]]]].
  rewrite (join_run _ _ _ _ _ _ _ _ _ _ Hparse Hroom Hemail Hcheck).
  unfold Legacy.on_join_room, json_parse, socket_join, fetchSockets.
  rewrite Hparse. unfold_run. unfold get_prop. rewrite Hroom. unfold_run.
  cbn [outcome final trace recipients app].
  set (info := joiner_info sid payload userEmail isCreator).
  set (st' := joined_state st sid roomId info).
  set (lst := with_memberships (add_all sid (rooms_arg roomId)) st).
  assert (Hm : memberships lst = memberships st').
  { subst lst st'. unfold joined_state. destruct (UserInfo.isModerator info); reflexivity. }
  assert (Hs : sockets lst = sockets st').
  { subst lst st'. unfold joined_state. destruct (UserInfo.isModerator info); reflexivity. }
  rewrite !(apply_ext lst st' _ _ Hm Hs).
  assert (Hlog : creator_log db roomId = [] \/
                 creator_log db roomId = [Console LogError "Error getting meeting creator:" []]).
  { unfold creator_log. destruct (select_creator_email db roomId); auto. }
  split; [reflexivity | ]. split; [exact Hm | ]. split; [exact Hs | ].
  assert (Hmsg : room_of JSON_parse msg = Some roomId)
    by (unfold room_of; now rewrite Hparse).
  destruct Hlog as [-> | ->].
  - cbn. rewrite String.eqb_refl. repeat split. exists roomId. repeat split. exact Hmsg.
  - cbn. rewrite String.eqb_refl. repeat split. exists roomId. repeat split. exact Hmsg.
Qed.

(** X22: the three signaling relays address and deliver as the earlier
    module's did, for every payload and state: same outcome, no change
    of state, same recipients.  For ICE candidates the relay is the
    earlier one.  For offers and answers the earlier module sent the
    payload itself, the module sends an object made of the payload's own
    properties with [userInfo] set to the sender's registry record.
    When the payload is an object every field but [userInfo] reads the
    same in both; a payload that is not an object (a string, an array)
    is replaced by such an object. *)
Theorem relay_is_legacy_but_for_userInfo (st : State) (sid : string) (payload : value) :
  let info := opt_info (JsMap.get (socketUserInfo st) (VStr sid)) in
  let with_userInfo := VObj (Js.set_field (Js.spread payload) "userInfo" info) in
  let as_before (r l : Run unit) :=
    outcome r = outcome l /\ final r = st /\ final l = st /\
    envelopes (trace r) = envelopes (trace l) /\
    (forall to received_by event sent,
       In (Sent to received_by event sent) (trace r) ->
       sent = with_userInfo /\ In (Sent to received_by event payload) (trace l)) /\
    (forall to received_by event sent,
       In (Sent to received_by event sent) (trace l) ->
       sent = payload /\ In (Sent to received_by event with_userInfo) (trace r)) in
  as_before (on_offer sid payload st) (Legacy.on_offer payload st) /\
  as_before (on_answer sid payload st) (Legacy.on_answer payload st) /\
  on_ice_candidate sid payload st = Legacy.on_ice_candidate payload st /\
  Js.prop with_userInfo "userInfo" = Some info /\
  (forall fields k, payload = VObj fields -> k <> "userInfo" ->
                    Js.prop with_userInfo k = Js.prop payload k) /\
  ((forall fields, payload <> VObj fields) -> with_userInfo <> payload).
Proof.
  cbv zeta.
  assert (H : forall event,
    let r := relay_with_sender event sid payload st in
    let l := Legacy.relay event payload st in
    outcome r = outcome l /\ final r = st /\ final l = st /\
    envelopes (trace r) = envelopes (trace l) /\
    (forall to received_by ev sent,
       In (Sent to received_by ev sent) (trace r) ->
       sent = VObj (Js.set_field (Js.spread payload) "userInfo"
                      (opt_info (JsMap.get (socketUserInfo st) (VStr sid)))) /\
       In (Sent to received_by ev payload) (trace l)) /\
    (forall to received_by ev sent,
       In (Sent to received_by ev sent) (trace l) ->
       sent = payload /\
       In (Sent to received_by ev
                (VObj (Js.set_field (Js.spread payload) "userInfo"
                         (opt_info (JsMap.get (socketUserInfo st) (VStr sid))))))
          (trace r))).
  { intros event. cbv zeta. unfold relay_with_sender, Legacy.relay. unfold_run.
    unfold get_prop. destruct (Js.prop payload "to") as [to | ]; unfold_run.
    - cbn [outcome final trace].
      split; [reflexivity | ]. split; [reflexivity | ]. split; [reflexivity | ].
      split; [reflexivity | ]. split.
      + intros a rs ev sent [H | []]. injection H as <- <- <- <-. split; [reflexivity | now left].
      + intros a rs ev sent [H | []]. injection H as <- <- <- <-. split; [reflexivity | now left].
    - cbn. repeat split; try reflexivity; contradiction. }
  split; [apply H | ]. split; [apply H | ]. split; [reflexivity | ].
  split; [ | split].
  - cbn [Js.prop]. now rewrite assoc_set_field_same.
  - intros fields k -> Hk. cbn [Js.prop Js.spread].
    rewrite assoc_set_field_other by congruence. reflexivity.
  - intros Hnot Heq. destruct payload as [ | | b | n | s | items | fields];
      try discriminate.
    now apply (Hnot fields).
Qed.

End LegacyProperties.

(** ** Meeting codes *)

Section MeetingProperties.

Import Meetings.

Lemma charAt_letter i :
  i < 26 -> exists c, charAt chars i = String c EmptyString /\ is_lower c = true.
Proof.
  intros H.
  do 26 (destruct i as [ | i]; [eexists; split; reflexivity | ]).
  lia.
Qed.

Lemma letters_draws draw count : forall code n,
  snd (letters draw count code n) = n + count.
Proof.
  induction count as [ | count IH]; intros code n; cbn.
  - lia.
  - rewrite IH. lia.
Qed.

Lemma generateMeetingCode_draws draw n :
  snd (generateMeetingCode draw n) = n + 10.
Proof.
  unfold generateMeetingCode.
  destruct (letters draw 3 EmptyString n) as [c1 n1] eqn:E1.
  destruct (letters draw 4 (String.append c1 "-") n1) as [c2 n2] eqn:E2.
  rewrite letters_draws.
  pose proof (letters_draws draw 3 EmptyString n) as H1. rewrite E1 in H1.
  pose proof (letters_draws draw 4 (String.append c1 "-") n1) as H2. rewrite E2 in H2.
  cbn in H1, H2. lia.
Qed.

Lemma generateMeetingCode_shape draw n :
  (forall k, draw k < 26) ->
  exists c0 c1 c2 c3 c4 c5 c6 c7 c8 c9,
    fst (generateMeetingCode draw n)
    = String c0 (String c1 (String c2 (String "-"
        (String c3 (String c4 (String c5 (String c6 (String "-"
        (String c7 (String c8 (String c9 EmptyString))))))))))) /\
    forallb is_lower [c0; c1; c2; c3; c4; c5; c6; c7; c8; c9] = true.
Proof.
  intros Hdraw. unfold generateMeetingCode. cbn [letters].
  destruct (charAt_letter _ (Hdraw n)) as [c0 [E0 L0]].
  destruct (charAt_letter _ (Hdraw (S n))) as [c1 [E1 L1]].
  destruct (charAt_letter _ (Hdraw (S (S n)))) as [c2 [E2 L2]].
  destruct (charAt_letter _ (Hdraw (3 + n))) as [c3 [E3 L3]].
  destruct (charAt_letter _ (Hdraw (4 + n))) as [c4 [E4 L4]].
  destruct (charAt_letter _ (Hdraw (5 + n))) as [c5 [E5 L5]].
  destruct (charAt_letter _ (Hdraw (6 + n))) as [c6 [E6 L6]].
  destruct (charAt_letter _ (Hdraw (7 + n))) as [c7 [E7 L7]].
  destruct (charAt_letter _ (Hdraw (8 + n))) as [c8 [E8 L8]].
  destruct (charAt_letter _ (Hdraw (9 + n))) as [c9 [E9 L9]].
  cbn [Nat.add] in *.
  rewrite E0, E1, E2, E3, E4, E5, E6, E7, E8, E9.
  exists c0, c1, c2, c3, c4, c5, c6, c7, c8, c9. split; [reflexivity | ].
  cbn [forallb]. rewrite L0, L1, L2, L3, L4, L5, L6, L7, L8, L9. reflexivity.
Qed.

Lemma upper_length s : String.length (upper s) = String.length s.
Proof. induction s as [ | c s IH]; cbn; congruence. Qed.

Lemma lower_is_ascii c : is_lower c = true -> (nat_of_ascii c <? 128)%nat = true.
Proof.
  unfold is_lower. intros H. apply andb_true_iff in H. destruct H as [_ H].
  apply Nat.leb_le in H. apply Nat.ltb_lt. lia.
Qed.

(** X23: with every random index in range, a generated meeting code has
    twelve characters: three lower-case letters, a dash, four letters, a
    dash, three letters; generating it takes ten random numbers. *)
Theorem generated_code_format (draw : nat -> nat) (n : nat) :
  (forall k, draw k < 26) ->
  let code := fst (generateMeetingCode draw n) in
  String.length code = 12 /\
  String.get 3 code = Some "-"%char /\
  String.get 8 code = Some "-"%char /\
  (forall i c, String.get i code = Some c -> i <> 3 -> i <> 8 -> is_lower c = true) /\
  snd (generateMeetingCode draw n) = n + 10.
Proof.
  intros Hdraw code. subst code.
  destruct (generateMeetingCode_shape draw n Hdraw)
    as [c0 [c1 [c2 [c3 [c4 [c5 [c6 [c7 [c8 [c9 [E L]]]]]]]]]]].
  rewrite E. cbn [forallb] in L.
  repeat (apply andb_true_iff in L; destruct L as [? L]).
  split; [reflexivity | ]. split; [reflexivity | ]. split; [reflexivity | ].
  split; [ | apply generateMeetingCode_draws].
  intros i c Hget Hfirst Hsecond.
  do 12 (destruct i as [ | i]; [cbn in Hget; try congruence | ]).
  cbn in Hget. discriminate.
Qed.

(** X24: the route guard refuses every code the service generates:
    a generated code, as it is or in upper case, fails
    [validateMeetingCode] (twelve characters with dashes against six
    letters or digits), so [validateMeetingCodeParam] throws the 400
    error for it. *)
Theorem generated_code_fails_validation
        (toUpperCase : string -> string) (draw : nat -> nat) (n : nat) :
  (forall s, ascii_only s = true -> toUpperCase s = upper s) ->
  (forall k, draw k < 26) ->
  let code := fst (generateMeetingCode draw n) in
  validateMeetingCode code = false /\
  validateMeetingCode (toUpperCase code) = false /\
  validateMeetingCodeParam toUpperCase (Some code)
  = inl (mkAppError "Invalid meeting code format" 400 "INVALID_MEETING_CODE").
Proof.
  intros Hupper Hdraw code. subst code.
  destruct (generateMeetingCode_shape draw n Hdraw)
    as [c0 [c1 [c2 [c3 [c4 [c5 [c6 [c7 [c8 [c9 [E L]]]]]]]]]]].
  assert (Hascii : ascii_only (fst (generateMeetingCode draw n)) = true).
  { rewrite E. cbn [forallb] in L.
    repeat (apply andb_true_iff in L; destruct L as [? L]).
    unfold ascii_only. cbn [list_ascii_of_string forallb].
    repeat match goal with
           | Hc : is_lower ?c = true |- _ => rewrite (lower_is_ascii c Hc); clear Hc
           end.
    reflexivity. }
  assert (Hlen : String.length (fst (generateMeetingCode draw n)) = 12)
    by (rewrite E; reflexivity).
  assert (Hup : validateMeetingCode (toUpperCase (fst (generateMeetingCode draw n))) = false).
  { rewrite (Hupper _ Hascii). unfold validateMeetingCode.
    rewrite upper_length, Hlen. reflexivity. }
  split; [ | split].
  - unfold validateMeetingCode. rewrite Hlen. reflexivity.
  - exact Hup.
  - unfold validateMeetingCodeParam. cbn [option_map]. rewrite Hup.
    rewrite orb_true_r. reflexivity.
Qed.

Section Retry.

Variable draw : nat -> nat.
Variable active : nat -> string -> bool.

Lemma generateMeetingCode_candidate n :
  generateMeetingCode draw n = (candidate draw n 0, n + 10).
Proof.
  unfold candidate. rewrite Nat.mul_0_r, Nat.add_0_r.
  pose proof (generateMeetingCode_draws draw n) as H.
  destruct (generateMeetingCode draw n) as [c m]. cbn in *. now subst.
Qed.

Lemma candidate_shift n k : candidate draw (n + 10) k = candidate draw n (S k).
Proof. unfold candidate. f_equal. f_equal. lia. Qed.

Lemma retry_found k : forall left attempts n,
  k < left ->
  (forall j, j < k -> active (attempts + j) (candidate draw n j) = true) ->
  active (attempts + k) (candidate draw n k) = false ->
  retry draw active left attempts (candidate draw n 0) (n + 10)
  = (Some (candidate draw n k), n + 10 * (k + 1)).
Proof.
  induction k as [ | k IH]; intros left attempts n Hlt Hbefore Hk.
  - destruct left as [ | left]; [lia | ]. cbn [retry].
    rewrite Nat.add_0_r in Hk. rewrite Hk. cbn. f_equal; lia.
  - destruct left as [ | left]; [lia | ]. cbn [retry].
    pose proof (Hbefore 0 ltac:(lia)) as H0. rewrite Nat.add_0_r in H0. rewrite H0.
    cbn [negb]. rewrite generateMeetingCode_candidate.
    rewrite (IH left (S attempts) (n + 10)).
    + rewrite candidate_shift. f_equal; lia.
    + lia.
    + intros j Hj. rewrite candidate_shift.
      replace (S attempts + j) with (attempts + S j) by lia. apply Hbefore. lia.
    + rewrite candidate_shift.
      replace (S attempts + k) with (attempts + S k) by lia. exact Hk.
Qed.

Lemma retry_exhausted left : forall attempts n,
  (forall j, j < left -> active (attempts + j) (candidate draw n j) = true) ->
  retry draw active left attempts (candidate draw n 0) (n + 10)
  = (None, n + 10 * (left + 1)).
Proof.
  induction left as [ | left IH]; intros attempts n Hall.
  - cbn. f_equal; lia.
  - cbn [retry]. pose proof (Hall 0 ltac:(lia)) as H0. rewrite Nat.add_0_r in H0.
    rewrite H0. cbn [negb]. rewrite generateMeetingCode_candidate.
    rewrite (IH (S attempts) (n + 10)).
    + f_equal; lia.
    + intros j Hj. rewrite candidate_shift.
      replace (S attempts + j) with (attempts + S j) by lia. apply Hall. lia.
Qed.

(** X25: [generateUniqueMeetingCode] returns the first generated code that
    is not active when it is checked, provided that is one of the first
    ten; when the first ten are all active it throws, after generating
    an eleventh code that it never checks. *)
Theorem unique_code_is_first_inactive (n : nat) :
  let r := generateUniqueMeetingCode draw active n in
  (forall k, k < 10 ->
     (forall j, j < k -> active j (candidate draw n j) = true) ->
     active k (candidate draw n k) = false ->
     r = (Some (candidate draw n k), n + 10 * (k + 1))) /\
  ((forall j, j < 10 -> active j (candidate draw n j) = true) ->
   r = (None, n + 110)).
Proof.
  cbv zeta. unfold generateUniqueMeetingCode. rewrite generateMeetingCode_candidate.
  split.
  - intros k Hk Hbefore Hfree. now apply (retry_found k maxAttempts 0 n).
  - intros Hall. now rewrite (retry_exhausted maxAttempts 0 n).
Qed.

End Retry.

End MeetingProperties.

(** ** Worked examples of the further properties *)

(** Facts about the room with [A] and [B] in it. *)
Lemma two_in_room_moderators : moderators_are_members Scenario.two_in_room.
Proof.
  intros r m H.
  change (roomModerators Scenario.two_in_room) with [(Scenario.room, "A")] in H.
  cbn [JsMap.get] in H.
  destruct (Js.eqb Scenario.room r) eqn:E; [ | discriminate].
  injection H as <-. apply eqb_eq in E. subst r. vm_compute. auto.
Qed.

Lemma two_in_room_can_hand_over : can_hand_over Scenario.two_in_room "A".
Proof.
  intros r H.
  change (roomModerators Scenario.two_in_room) with [(Scenario.room, "A")] in H.
  cbn [JsMap.get] in H.
  destruct (Js.eqb Scenario.room r) eqn:E; [ | discriminate].
  apply eqb_eq in E. subst r.
  split; [discriminate | ]. split; [reflexivity | ].
  exists "B". split; [discriminate | ]. split; [vm_compute; auto | reflexivity].
Qed.

Lemma two_in_room_plain_B r : is_moderator Scenario.two_in_room r "B" = false.
Proof.
  unfold is_moderator.
  change (roomModerators Scenario.two_in_room) with [(Scenario.room, "A")].
  cbn [JsMap.get]. destruct (Js.eqb Scenario.room r); reflexivity.
Qed.

(** A kick while two messages wait for the flush. *)
Lemma room_and_signal_events_keep_store_witness :
  let ev := KickUser "A" Examples.kick_B in
  store_event ev = false /\
  same_store Scenario.chatting
    (final (handle Json.parse Json.lower Scenario.epoch Scenario.db ev Scenario.chatting)).
Proof.
  split; [reflexivity | ].
  apply room_and_signal_events_keep_store. reflexivity.
Defined.

(** A flush with two in the room. *)
Lemma chat_and_signal_events_keep_rooms_witness :
  room_event FlushTick = false /\
  same_rooms Scenario.chatting
    (final (handle Json.parse Json.lower Scenario.epoch Scenario.db FlushTick
                   Scenario.chatting)).
Proof.
  split; [reflexivity | ].
  apply chat_and_signal_events_keep_rooms. reflexivity.
Defined.

(** The room is looked up once; a database that is down afterwards is
    not asked. *)
Lemma resolved_id_is_cached_witness :
  let r := getMeetingId Scenario.db Scenario.room Scenario.two_in_room in
  JsMap.has (meetingIdMap Scenario.two_in_room) Scenario.room = false /\
  outcome r = Returned (Some "meeting_1") /\
  getMeetingId Examples.down Scenario.room (final r)
  = mkRun (Returned (Some "meeting_1")) (final r) [].
Proof.
  split; [reflexivity | ].
  destruct (resolved_id_is_cached Scenario.db Examples.down Scenario.two_in_room
              Scenario.room "meeting_1" [] eq_refl eq_refl) as [Ho [_ [_ Hlater]]].
  split; [exact Ho | exact Hlater].
Defined.


(** The moderator removes the guest. *)
Lemma kick_removes_target_witness :
  let r := on_kick_user "A" Examples.kick_B Examples.overheard in
  is_moderator Examples.overheard Scenario.room "A" = true /\
  is_member Examples.overheard "B" Scenario.room = true /\
  outcome r = Returned tt /\
  (exists notice,
      nth_error (trace r) 0
      = Some (Sent (ToRooms [VStr "B"] []) ["B"; "C"] "kicked" notice)) /\
  is_member (final r) "B" Scenario.room = false /\
  JsMap.get (socketUserInfo (final r)) (VStr "B") = None.
Proof.
  split; [reflexivity | ]. split; [reflexivity | ].
  destruct (kick_removes_target Examples.overheard "A" Examples.kick_B Scenario.room "B"
              eq_refl eq_refl eq_refl) as [Ho [[notice Ht] [_ [_ [Hout [_ [_ [Hreg _]]]]]]]].
  - discriminate.
  - reflexivity.
  - split; [exact Ho | ]. split; [exists notice; rewrite Ht; reflexivity | ].
    split; [exact Hout | ]. rewrite Hreg. reflexivity.
Defined.

(** The moderator aims at an id that is not connected. *)
Lemma kick_of_absent_target_is_silent_witness :
  find_socket Scenario.two_in_room (VStr "Z") = None /\
  on_kick_user "A" Examples.kick_Z Scenario.two_in_room
  = mkRun (Returned tt) Scenario.two_in_room [].
Proof.
  split; [reflexivity | ].
  apply (kick_of_absent_target_is_silent Scenario.two_in_room "A" Examples.kick_Z
           Scenario.room (VStr "Z")); try reflexivity.
  discriminate.
Defined.

(** After the guest is removed the moderator is still in the room. *)
Lemma kick_keeps_moderators_members_witness :
  moderators_are_members Scenario.two_in_room /\
  moderators_are_members (final (on_kick_user "A" Examples.kick_B Scenario.two_in_room)).
Proof.
  split; [exact two_in_room_moderators | ].
  apply kick_keeps_moderators_members. exact two_in_room_moderators.
Defined.




(** The guest joins; the list it gets names the moderator. *)
Lemma existing_participants_are_the_others_witness :
  let r := Scenario.join "B" Scenario.guest_joins Scenario.before_B in
  exists peers,
    filter (is_sent "existing-participants") (trace r)
    = [Sent (ToRooms [VStr "B"] []) (apply (final r) [VStr "B"] [])
            "existing-participants"
            (VArr (map (participant (final r)) peers))] /\
    In "B" (apply (final r) [VStr "B"] []) /\
    ~ In "B" peers /\ In "A" peers.
Proof.
  destruct (existing_participants_are_the_others Json.parse Json.lower Scenario.db
              Scenario.before_B "B" Scenario.guest_joins eq_refl)
    as [roomId [peers [Hroom [Hsent [Hown [Hnot [_ [Hall _]]]]]]]].
  - intros items H. vm_compute in H. discriminate.
  - exists peers. split; [exact Hsent | ]. split; [exact (Hown eq_refl eq_refl) | ].
    split; [exact Hnot | ].
    vm_compute in Hroom. injection Hroom as <-.
    apply Hall; [discriminate | vm_compute; auto | reflexivity].
Defined.

(** The guest takes over from the departing moderator. *)
Lemma failover_promotes_first_other_witness :
  let r := failover "A" Scenario.room false Scenario.two_in_room in
  successor_of Scenario.two_in_room "A" Scenario.room = Some "B" /\
  (exists notice,
      trace r = [Sent (ToRooms [Scenario.room] []) ["B"] "moderator-changed" notice]) /\
  JsMap.get (roomModerators (final r)) Scenario.room = Some "B" /\
  option_map UserInfo.isModerator (JsMap.get (socketUserInfo (final r)) (VStr "B"))
  = Some true.
Proof.
  split; [reflexivity | ].
  destruct (failover_promotes_first_other Scenario.two_in_room "A" Scenario.room "B" eq_refl)
    as [_ [Ht [_ [Hmod [Hinfo _]]]]].
  - discriminate.
  - split; [rewrite Ht; eexists; reflexivity | ].
    split; [exact Hmod | ]. rewrite Hinfo. reflexivity.
Defined.

(** The guest leaves. *)
Lemma disconnecting_of_participant_witness :
  final (on_disconnecting "B" Scenario.two_in_room)
  = with_socketUserInfo (fun m => JsMap.delete m (VStr "B")) Scenario.two_in_room.
Proof.
  apply disconnecting_of_participant. exact two_in_room_plain_B.
Defined.

(** The guest disconnects; the moderator stays in the room. *)
Lemma disconnect_forgets_the_socket_witness :
  let st' := final (handle Json.parse Json.lower Scenario.epoch Scenario.db (Disconnect "B")
                           Scenario.two_in_room) in
  unique_keys (socketUserInfo Scenario.two_in_room) /\
  mem "B" (sockets st') = false /\
  JsMap.get (socketUserInfo st') (VStr "B") = None /\
  is_member st' "A" Scenario.room = true.
Proof.
  assert (Hu : unique_keys (socketUserInfo Scenario.two_in_room))
    by (vm_compute; auto).
  split; [exact Hu | ].
  destruct (disconnect_forgets_the_socket Json.parse Json.lower Scenario.epoch Scenario.db
              Scenario.two_in_room "B" Hu) as [Hc [_ [Hreg [Hothers _]]]].
  split; [exact Hc | ]. split; [exact Hreg | ].
  rewrite Hothers; [reflexivity | discriminate].
Defined.

(** The moderator disconnects while the guest is in the room. *)
Lemma disconnect_keeps_moderators_members_witness :
  can_hand_over Scenario.two_in_room "A" /\
  moderators_are_members
    (final (handle Json.parse Json.lower Scenario.epoch Scenario.db (Disconnect "A")
                   Scenario.two_in_room)).
Proof.
  split; [exact two_in_room_can_hand_over | ].
  apply disconnect_keeps_moderators_members.
  - exact two_in_room_moderators.
  - exact two_in_room_can_hand_over.
  - reflexivity.
Defined.


(** A candidate for the guest after the guest has gone. *)
Lemma relay_to_departed_is_dropped_witness :
  let st' := final (handle Json.parse Json.lower Scenario.epoch Scenario.db (Disconnect "B")
                           Scenario.two_in_room) in
  Js.prop Scenario.candidate "to" = Some (VStr "B") /\
  on_ice_candidate "A" Scenario.candidate st'
  = mkRun (Returned tt) st' [Sent (ToRooms [VStr "B"] []) [] "ice-candidate"
                                  Scenario.candidate].
Proof.
  split; [reflexivity | ].
  destruct (relay_to_departed_is_dropped Json.parse Json.lower Scenario.epoch Scenario.db
              Scenario.two_in_room "A" "B" Scenario.candidate) as [_ [_ Hice]].
  - intros s H. vm_compute in H. destruct H as [<- | []]. reflexivity.
  - reflexivity.
  - exact Hice.
Defined.


(** The guest joins, under both modules. *)
Lemma join_is_legacy_for_transport_witness :
  let r := Scenario.join "B" Scenario.guest_joins Scenario.before_B in
  let l := Legacy.on_join_room Json.parse "B" Scenario.guest_joins Scenario.before_B in
  outcome r = Returned tt /\
  outcome l = Returned tt /\
  memberships (final l) = memberships (final r) /\
  envelopes (filter (is_sent "peer-joined") (trace l))
  = envelopes (filter (is_sent "peer-joined") (trace r)).
Proof.
  split; [reflexivity | ].
  destruct (join_is_legacy_for_transport Json.parse Json.lower Scenario.db
              Scenario.before_B "B" Scenario.guest_joins eq_refl)
    as [Ho [Hm [_ [_ [He _]]]]].
  split; [exact Ho | ]. split; [exact Hm | exact He].
Defined.

(** The first code of the alphabet is the room of the worked scenario. *)
Lemma alphabet_in_range k : Examples.alphabet k < 26.
Proof. unfold Examples.alphabet. apply Nat.mod_upper_bound. discriminate. Qed.

Lemma generated_code_format_witness :
  fst (Meetings.generateMeetingCode Examples.alphabet 0) = "abc-defg-hij" /\
  String.length (fst (Meetings.generateMeetingCode Examples.alphabet 0)) = 12 /\
  snd (Meetings.generateMeetingCode Examples.alphabet 0) = 10.
Proof.
  split; [reflexivity | ].
  destruct (generated_code_format Examples.alphabet 0 alphabet_in_range)
    as [Hlen [_ [_ [_ Hdraws]]]].
  split; [exact Hlen | exact Hdraws].
Defined.

(** The route guard refuses the room of the worked scenario. *)
Lemma generated_code_fails_validation_witness :
  fst (Meetings.generateMeetingCode Examples.alphabet 0) = "abc-defg-hij" /\
  Meetings.upper "abc-defg-hij" = "ABC-DEFG-HIJ" /\
  Meetings.validateMeetingCodeParam Meetings.upper
    (Some (fst (Meetings.generateMeetingCode Examples.alphabet 0)))
  = inl (Meetings.mkAppError "Invalid meeting code format" 400 "INVALID_MEETING_CODE").
Proof.
  split; [reflexivity | ]. split; [reflexivity | ].
  destruct (generated_code_fails_validation Meetings.upper Examples.alphabet 0)
    as [_ [_ Hthrown]].
  - intros s _. reflexivity.
  - exact alphabet_in_range.
  - exact Hthrown.
Defined.
